(** * A shallow embedding of rust-bdd: the dynamic protobuf value codec
    (src/proto_dyn.rs) and the ZeroMQ expectation matcher (src/broker.rs). *)

From Stdlib Require Import String Ascii List ZArith Bool Lia.
From Stdlib Require Import Floats.SpecFloat.
Import ListNotations.
Set Warnings "-register-all".
Open Scope Z_scope.

(** ** serde_json values *)

(** [serde_json::Number]: its internal representation [N].  [PosInt] holds a
    u64 (>= 0), [NegInt] an i64 (< 0), [Float] a finite f64, represented as an
    IEEE binary64 [spec_float] (precision 53, emax 1024). *)
Inductive Number :=
| PosInt (n : Z)
| NegInt (n : Z)
| Float (f : spec_float).

(** [serde_json::Value].  A [Map<String, Value>] is an association list
    whose keys are distinct; its order is the one [map_insert] builds. *)
Inductive Value :=
| JNull
| JBool (b : bool)
| JNumber (n : Number)
| JString (s : string)
| JArray (l : list Value)
| JObject (m : list (string * Value)).

(** f64 equality ([==] on [f64]), IEEE: NaN is unequal to itself, +0 = -0. *)
Definition f64_eq (a b : spec_float) : bool := SFeqb a b.

(** [impl PartialEq for N] *)
Definition number_eqb (a b : Number) : bool :=
  match a, b with
  | PosInt x, PosInt y => Z.eqb x y
  | NegInt x, NegInt y => Z.eqb x y
  | Float x, Float y => f64_eq x y
  | _, _ => false
  end.

(** [Map::get]: the value stored under [k]. *)
Fixpoint map_get {A} (k : string) (m : list (string * A)) : option A :=
  match m with
  | [] => None
  | (k', v) :: r => if String.eqb k k' then Some v else map_get k r
  end.

(** [impl PartialEq for Value] (derived), with the map equality of
    [serde_json::Map]: same length and every entry of the left map found with
    an equal value in the right one. *)
Fixpoint value_eqb (a b : Value) {struct a} : bool :=
  match a, b with
  | JNull, JNull => true
  | JBool x, JBool y => Bool.eqb x y
  | JNumber x, JNumber y => number_eqb x y
  | JString x, JString y => String.eqb x y
  | JArray xs, JArray ys =>
      (fix go (xs ys : list Value) : bool :=
         match xs, ys with
         | [], [] => true
         | x :: xs', y :: ys' => value_eqb x y && go xs' ys'
         | _, _ => false
         end) xs ys
  | JObject xm, JObject ym =>
      Nat.eqb (length xm) (length ym) &&
      forallb (fun '(k, v) =>
                 match map_get k ym with
                 | Some v' => value_eqb v v'
                 | None => false
                 end) xm
  | _, _ => false
  end.

(** [json_partial_match] (src/proto_dyn.rs, lines 154-163). *)
Fixpoint json_partial_match (expected actual : Value) {struct expected} : bool :=
  match expected, actual with
  | JObject eo, JObject ao =>
      forallb (fun '(k, ev) =>
                 match map_get k ao with
                 | Some av => json_partial_match ev av
                 | None => false
                 end) eo
  | JArray ea, JArray aa =>
      forallb (fun ev => existsb (fun av => json_partial_match ev av) aa) ea
  | _, _ => value_eqb expected actual
  end.

(** ** Descriptor pool *)

(** [prost_reflect::Kind]; a message kind names its descriptor by full name
    (message types may be recursive), an enum kind carries the enum's values
    in declaration order. *)
Record EnumDescriptor := {
  enum_full_name : string;
  enum_values : list (string * Z)
}.

Inductive Kind :=
| Double | Float32 | Int32 | Int64 | Uint32 | Uint64 | Sint32 | Sint64
| Fixed32 | Fixed64 | Sfixed32 | Sfixed64 | KBool | KString | Bytes
| Message (full_name : string)
| Enum (e : EnumDescriptor).

(** How many values a field holds. *)
Inductive Cardinality := Single | ListField | MapField.

Record FieldDescriptor := {
  field_name : string;
  field_number : Z;
  field_kind : Kind;
  field_card : Cardinality;
  (** [supports_presence]: message fields, proto2 fields, proto3 [optional]
      and oneof members *)
  field_presence : bool;
  (** index of the containing oneof *)
  field_oneof : option nat
}.

Record MessageDescriptor := {
  full_name : string;
  fields : list FieldDescriptor
}.

(** [DescriptorPool]: its messages in [all_messages()] order. *)
Definition DescriptorPool := list MessageDescriptor.

Inductive error :=
| MessageNotFound (name : string)               (* "message {} not found" *)
| UnknownField (k : string) (msg : option string) (* "unknown field {} [for {}]" *)
| Expected (what : string)                      (* "expected bool", ... *)
| BytesMustBeBase64                             (* "bytes must be base64" *)
| UnknownEnum (s : string)                      (* "unknown enum {}" *)
| EnumMustBeStringOrInt                         (* "enum must be string or int" *)
| MergeFailed                                   (* "merge failed" *)
| Bail (msg : string)                           (* anyhow::bail! *)
| Context (ctx : string) (cause : string).      (* e.context(ctx) *)

(** [anyhow::Result], plus a panic outcome. *)
Inductive result (A : Type) :=
| Ok (a : A)
| Err (e : error)
| Panic (msg : string).
Arguments Ok {A} a.
Arguments Err {A} e.
Arguments Panic {A} msg.

Definition bind {A B} (r : result A) (k : A -> result B) : result B :=
  match r with
  | Ok a => k a
  | Err e => Err e
  | Panic m => Panic m
  end.
Notation "x <- r ;; k" := (bind r (fun x => k)) (at level 61, r at next level, right associativity).

(** [s.rsplit('.').next()]: the text after the last ['.'] (all of [s] when it
    has none). *)
Fixpoint last_segment_acc (s acc : string) : string :=
  match s with
  | EmptyString => acc
  | String c r =>
      if Ascii.eqb c "."%char then last_segment_acc r EmptyString
      else last_segment_acc r (acc ++ String c EmptyString)
  end.
Definition last_segment (s : string) : string := last_segment_acc s EmptyString.

(** [DescriptorPool::get_message_by_name] *)
Definition get_message_by_name (pool : DescriptorPool) (name : string)
  : option MessageDescriptor :=
  find (fun m => String.eqb (full_name m) name) pool.

(** [ProtoDyn::message_desc] (src/proto_dyn.rs, lines 31-45). *)
Definition message_desc (pool : DescriptorPool) (name : string)
  : result MessageDescriptor :=
  match get_message_by_name pool name with
  | Some m => Ok m
  | None =>
      match find (fun m => String.eqb (last_segment (full_name m)) name) pool with
      | Some m => Ok m
      | None => Err (MessageNotFound name)
      end
  end.

(** ** Numeric conversions of serde_json and of Rust's [as] *)

Definition i64_max : Z := 2 ^ 63 - 1.

(** Rust [x as f64] for an integer [x]: round to nearest, ties to even. *)
Definition f64_of_Z (n : Z) : spec_float := binary_normalize 53 1024 n 0 false.

(** Rust [x as f32] for an [f64] [x]. *)
Definition f32_of_f64 (x : spec_float) : spec_float :=
  match x with
  | S754_finite s m e => binary_round 24 128 s m e
  | _ => x
  end.

(** Rust [x as f64] for an [f32] [x] (exact). *)
Definition f64_of_f32 (x : spec_float) : spec_float :=
  match x with
  | S754_finite s m e => binary_round 53 1024 s m e
  | _ => x
  end.

Definition is_finite (x : spec_float) : bool :=
  match x with
  | S754_zero _ | S754_finite _ _ _ => true
  | _ => false
  end.

(** Rust [x as i32] for an [i64] [x], and [x as u32] for a [u64]. *)
Definition wrap_i32 (x : Z) : Z :=
  let m := x mod 2 ^ 32 in if m >=? 2 ^ 31 then m - 2 ^ 32 else m.
Definition wrap_u32 (x : Z) : Z := x mod 2 ^ 32.

(** [Value::as_bool], [as_i64], [as_u64], [as_f64], [as_str]. *)
Definition as_bool (v : Value) : option bool :=
  match v with JBool b => Some b | _ => None end.
Definition as_i64 (v : Value) : option Z :=
  match v with
  | JNumber (PosInt n) => if n <=? i64_max then Some n else None
  | JNumber (NegInt n) => Some n
  | _ => None
  end.
Definition as_u64 (v : Value) : option Z :=
  match v with JNumber (PosInt n) => Some n | _ => None end.
Definition as_f64 (v : Value) : option spec_float :=
  match v with
  | JNumber (PosInt n) | JNumber (NegInt n) => Some (f64_of_Z n)
  | JNumber (Float f) => Some f
  | _ => None
  end.
Definition as_str (v : Value) : option string :=
  match v with JString s => Some s | _ => None end.

(** [impl From<i64> for Value] (also [i32]); [From<u64>] (also [u32]). *)
Definition json_of_i64 (i : Z) : Value :=
  if i <? 0 then JNumber (NegInt i) else JNumber (PosInt i).
Definition json_of_u64 (u : Z) : Value := JNumber (PosInt u).
(** [impl From<f64> for Value] and [From<f32>]: non-finite floats become [Null]. *)
Definition json_of_f64 (f : spec_float) : Value :=
  if is_finite f then JNumber (Float f) else JNull.
Definition json_of_f32 (f : spec_float) : Value :=
  if is_finite f then JNumber (Float (f64_of_f32 f)) else JNull.

(** ** Base64, [general_purpose::STANDARD] (padded, canonical) *)

Definition sextet_of_char (c : ascii) : option Z :=
  let n := Z.of_nat (nat_of_ascii c) in
  if (65 <=? n) && (n <=? 90) then Some (n - 65)
  else if (97 <=? n) && (n <=? 122) then Some (n - 71)
  else if (48 <=? n) && (n <=? 57) then Some (n + 4)
  else if n =? 43 then Some 62
  else if n =? 47 then Some 63
  else None.

Definition char_of_sextet (s : Z) : ascii :=
  ascii_of_nat (Z.to_nat
    (if s <? 26 then s + 65
     else if s <? 52 then s + 71
     else if s <? 62 then s - 4
     else if s =? 62 then 43 else 47)).

Definition pad : ascii := "="%char.

Fixpoint b64_encode_bytes (bs : list Z) : list ascii :=
  match bs with
  | [] => []
  | [b0] =>
      [char_of_sextet (b0 / 4); char_of_sextet ((b0 mod 4) * 16); pad; pad]
  | [b0; b1] =>
      [char_of_sextet (b0 / 4); char_of_sextet ((b0 mod 4) * 16 + b1 / 16);
       char_of_sextet ((b1 mod 16) * 4); pad]
  | b0 :: b1 :: b2 :: r =>
      char_of_sextet (b0 / 4) :: char_of_sextet ((b0 mod 4) * 16 + b1 / 16)
      :: char_of_sextet ((b1 mod 16) * 4 + b2 / 64) :: char_of_sextet (b2 mod 64)
      :: b64_encode_bytes r
  end.

(** Decoding rejects a length that is not a multiple of 4, misplaced padding
    and non-zero trailing bits. *)
Fixpoint b64_decode_chars (cs : list ascii) : option (list Z) :=
  match cs with
  | [] => Some []
  | a :: b :: c :: d :: r =>
      match sextet_of_char a, sextet_of_char b with
      | Some a', Some b' =>
          match r, Ascii.eqb c pad, Ascii.eqb d pad with
          | [], true, true =>
              if b' mod 16 =? 0 then Some [a' * 4 + b' / 16] else None
          | [], false, true =>
              match sextet_of_char c with
              | Some c' =>
                  if c' mod 4 =? 0
                  then Some [a' * 4 + b' / 16; (b' mod 16) * 16 + c' / 4]
                  else None
              | None => None
              end
          | _, _, _ =>
              match sextet_of_char c, sextet_of_char d, b64_decode_chars r with
              | Some c', Some d', Some rest =>
                  Some ((a' * 4 + b' / 16) :: ((b' mod 16) * 16 + c' / 4)
                        :: ((c' mod 4) * 64 + d') :: rest)
              | _, _, _ => None
              end
          end
      | _, _ => None
      end
  | _ => None
  end.

Definition b64_encode (bs : list Z) : string := string_of_list_ascii (b64_encode_bytes bs).
Definition b64_decode (s : string) : option (list Z) := b64_decode_chars (list_ascii_of_string s).

(** ** prost_reflect values and dynamic messages *)

(** [prost_reflect::MapKey] *)
Inductive MapKey :=
| KeyBool (b : bool) | KeyI32 (i : Z) | KeyI64 (i : Z)
| KeyU32 (u : Z) | KeyU64 (u : Z) | KeyString (s : string).

(** [prost_reflect::Value]; a message value carries its descriptor and its
    set fields, keyed by field number.  Bytes are 8-bit [Z]s; [F32] holds a
    binary32 [spec_float] (precision 24, emax 128). *)
Inductive PbValue :=
| VBool (b : bool)
| I32 (i : Z) | I64 (i : Z) | U32 (u : Z) | U64 (u : Z)
| F32 (f : spec_float) | F64 (f : spec_float)
| VString (s : string)
| VBytes (b : list Z)
| EnumNumber (n : Z)
| VMessage (desc : MessageDescriptor) (fs : list (Z * PbValue))
| VList (l : list PbValue)
| VMap (m : list (MapKey * PbValue)).

(** [prost_reflect::DynamicMessage] *)
Record DynamicMessage := {
  descriptor : MessageDescriptor;
  dm_fields : list (Z * PbValue)
}.

(** [DynamicMessage::new] *)
Definition new_message (d : MessageDescriptor) : DynamicMessage :=
  {| descriptor := d; dm_fields := [] |}.

Fixpoint lookup_number {A} (n : Z) (l : list (Z * A)) : option A :=
  match l with
  | [] => None
  | (n', v) :: r => if Z.eqb n n' then Some v else lookup_number n r
  end.

(** [Value::is_valid] for a field's kind. *)
Definition is_valid (v : PbValue) (k : Kind) : bool :=
  match v, k with
  | VBool _, KBool => true
  | I32 _, (Int32 | Sint32 | Sfixed32) => true
  | I64 _, (Int64 | Sint64 | Sfixed64) => true
  | U32 _, (Uint32 | Fixed32) => true
  | U64 _, (Uint64 | Fixed64) => true
  | F32 _, Float32 => true
  | F64 _, Double => true
  | VString _, KString => true
  | VBytes _, Bytes => true
  | EnumNumber _, Enum _ => true
  | VMessage d _, Message m => String.eqb (full_name d) m
  | _, _ => false
  end.

(** [Value::is_valid_for_field]: a list value on a list field is checked
    element by element against the field's kind and a map value on a map
    field is accepted (its entries are not checked against the entry type
    here; [json_to_pbvalue] never builds a map value); any other value is
    checked against the field's kind with [is_valid], so a single element
    value on a list field, or an entry message on a map field, is accepted. *)
Definition is_valid_for_field (v : PbValue) (f : FieldDescriptor) : bool :=
  match field_card f, v with
  | ListField, VList l => forallb (fun x => is_valid x (field_kind f)) l
  | MapField, VMap _ => true
  | _, _ => is_valid v (field_kind f)
  end.

(** [DynamicMessageFieldSet::set]: stores the value under the field's number
    and clears the other members of its oneof. *)
Definition fields_set (d : MessageDescriptor) (f : FieldDescriptor) (v : PbValue)
  (fs : list (Z * PbValue)) : list (Z * PbValue) :=
  let other_member (n : Z) :=
    match field_oneof f with
    | Some o =>
        negb (Z.eqb n (field_number f)) &&
        existsb (fun g => Z.eqb (field_number g) n &&
                          match field_oneof g with
                          | Some o' => Nat.eqb o o'
                          | None => false
                          end) (fields d)
    | None => false
    end in
  let kept := filter (fun '(n, _) => negb (other_member n)) fs in
  if existsb (fun '(n, _) => Z.eqb n (field_number f)) kept
  then map (fun '(n, x) => if Z.eqb n (field_number f) then (n, v) else (n, x)) kept
  else kept ++ [(field_number f, v)].

(** [DynamicMessage::set_field]: panics when the value does not fit the field. *)
Definition set_field (msg : DynamicMessage) (f : FieldDescriptor) (v : PbValue)
  : result DynamicMessage :=
  if is_valid_for_field v f
  then Ok {| descriptor := descriptor msg;
             dm_fields := fields_set (descriptor msg) f v (dm_fields msg) |}
  else Panic "InvalidType".

(** [Value::is_default] for the zero defaults of fields without presence. *)
Definition is_default (v : PbValue) : bool :=
  match v with
  | VBool b => negb b
  | I32 i | I64 i | U32 i | U64 i | EnumNumber i => Z.eqb i 0
  | F32 f | F64 f => match f with S754_zero _ => true | _ => false end
  | VString s => String.eqb s EmptyString
  | VBytes b | VList b => match b with [] => true | _ => false end
  | VMap m => match m with [] => true | _ => false end
  | VMessage _ _ => false
  end.

(** [DynamicMessage::has_field]: a field that supports presence is present
    once set; any other field only when set to a non-default value. *)
Definition has_field_in (fs : list (Z * PbValue)) (f : FieldDescriptor) : bool :=
  match lookup_number (field_number f) fs with
  | Some v => field_presence f || negb (is_default v)
  | None => false
  end.
Definition has_field (msg : DynamicMessage) (f : FieldDescriptor) : bool :=
  has_field_in (dm_fields msg) f.

(** [FieldDescriptor]'s lookup by name, [get_field_by_name]. *)
Definition get_field_by_name (d : MessageDescriptor) (k : string)
  : option FieldDescriptor :=
  find (fun f => String.eqb (field_name f) k) (fields d).

(** [serde_json::Map::insert]: replaces the value of an existing key, adds a
    new key.  Without its preserve_order feature, serde_json's Map is a
    BTreeMap and iterates its keys in sorted order; this list keeps them in
    insertion order instead.  The properties stated below do not depend on the
    order of an object's keys: they look keys up, or relate an object to the
    object it was computed from entry by entry. *)
Fixpoint map_insert (k : string) (v : Value) (m : list (string * Value))
  : list (string * Value) :=
  match m with
  | [] => [(k, v)]
  | (k', v') :: r => if String.eqb k k' then (k', v) :: r else (k', v') :: map_insert k v r
  end.

(** ** Debug formatting of map keys, [format!("{:?}", k)] *)

Definition quote : ascii := ascii_of_nat 34.
Definition backslash : ascii := ascii_of_nat 92.

Definition digit (d : Z) : ascii := ascii_of_nat (48 + Z.to_nat d).

Fixpoint dec_digits (fuel : nat) (n : Z) (acc : string) : string :=
  match fuel with
  | O => acc
  | S f =>
      let acc' := String (digit (n mod 10)) acc in
      if n / 10 =? 0 then acc' else dec_digits f (n / 10) acc'
  end.

(** [{:?}] of an integer: decimal, with a leading ['-'] when negative. *)
Definition fmt_int (i : Z) : string :=
  let a := Z.abs i in
  let s := dec_digits (S (Z.to_nat (Z.log2 a))) a EmptyString in
  if i <? 0 then String "-"%char s else s.

Definition hex_digit (d : Z) : ascii :=
  if d <? 10 then digit d else ascii_of_nat (87 + Z.to_nat d).

(** [str]'s [Debug] escaping ([char::escape_debug_ext]) on one byte.  On
    ASCII it is Rust's: NUL, tab, carriage return, line feed, the double quote
    and the backslash get their backslash escapes, the other control
    characters and DEL are written as \u{..}, the rest is kept.  A byte above
    0x7f belongs to the UTF-8 encoding of a non-ASCII character and is kept:
    that is Rust's output for a printable character that is not a grapheme
    extender, but Rust writes the others (U+0085, combining marks, ...) as
    \u{..} following core's Unicode tables, which are not modelled here.  The
    properties of map-key text below are stated for ASCII keys ([key_ascii]). *)
Definition escape_debug_char (c : ascii) : string :=
  let n := Z.of_nat (nat_of_ascii c) in
  if n =? 0 then "\0"
  else if n =? 9 then "\t"
  else if n =? 13 then "\r"
  else if n =? 10 then "\n"
  else if n =? 34 then String backslash (String quote EmptyString)
  else if n =? 92 then "\\"
  else if (n <? 32) || (n =? 127) then
    "\u{" ++ (if n <? 16 then String (hex_digit n) EmptyString
              else String (hex_digit (n / 16)) (String (hex_digit (n mod 16)) EmptyString))
    ++ "}"
  else String c EmptyString.

Fixpoint escape_debug (s : string) : string :=
  match s with
  | EmptyString => EmptyString
  | String c r => escape_debug_char c ++ escape_debug r
  end.

(** A map key whose text is ASCII: every byte of a string key is below 0x80. *)
Definition key_ascii (k : MapKey) : bool :=
  match k with
  | KeyString s => forallb (fun c => Nat.ltb (nat_of_ascii c) 128) (list_ascii_of_string s)
  | _ => true
  end.

(** [#[derive(Debug)]] of [MapKey]. *)
Definition fmt_map_key (k : MapKey) : string :=
  match k with
  | KeyBool b => "Bool(" ++ (if b then "true" else "false") ++ ")"
  | KeyI32 i => "I32(" ++ fmt_int i ++ ")"
  | KeyI64 i => "I64(" ++ fmt_int i ++ ")"
  | KeyU32 u => "U32(" ++ fmt_int u ++ ")"
  | KeyU64 u => "U64(" ++ fmt_int u ++ ")"
  | KeyString s => "String(" ++ String quote (escape_debug s ++ String quote ")")
  end.

(** ** JSON to protobuf values *)

Definition of_option {A} (o : option A) (e : error) : result A :=
  match o with Some a => Ok a | None => Err e end.

(** The loop over a JSON object's entries shared by [build_from_json] and
    the message arm of [json_to_pbvalue]: look the key up among the
    descriptor's fields ([unknown k] when absent), convert the value with the
    field's kind, set it. *)
Fixpoint set_fields (conv : Kind -> Value -> result PbValue) (unknown : string -> error)
  (desc : MessageDescriptor) (obj : list (string * Value)) (msg : DynamicMessage)
  : result DynamicMessage :=
  match obj with
  | [] => Ok msg
  | (k, v) :: rest =>
      match get_field_by_name desc k with
      | Some field =>
          val <- conv (field_kind field) v ;;
          msg' <- set_field msg field val ;;
          set_fields conv unknown desc rest msg'
      | None => Err (unknown k)
      end
  end.

(** [json_to_pbvalue] (src/proto_dyn.rs, lines 79-116).  A message kind's
    descriptor is looked up in the pool by its full name; in a pool built by
    prost-reflect the lookup always succeeds. *)
Fixpoint json_to_pbvalue (pool : DescriptorPool) (kind : Kind) (v : Value)
  {struct v} : result PbValue :=
  match kind with
  | KBool => b <- of_option (as_bool v) (Expected "bool") ;; Ok (VBool b)
  | Int32 | Sint32 | Sfixed32 =>
      i <- of_option (as_i64 v) (Expected "i32") ;; Ok (I32 (wrap_i32 i))
  | Int64 | Sint64 | Sfixed64 =>
      i <- of_option (as_i64 v) (Expected "i64") ;; Ok (I64 i)
  | Uint32 | Fixed32 =>
      u <- of_option (as_u64 v) (Expected "u32") ;; Ok (U32 (wrap_u32 u))
  | Uint64 | Fixed64 =>
      u <- of_option (as_u64 v) (Expected "u64") ;; Ok (U64 u)
  | Float32 => f <- of_option (as_f64 v) (Expected "f32") ;; Ok (F32 (f32_of_f64 f))
  | Double => f <- of_option (as_f64 v) (Expected "f64") ;; Ok (F64 f)
  | KString => s <- of_option (as_str v) (Expected "string") ;; Ok (VString s)
  | Bytes =>
      s <- of_option (as_str v) (Expected "base64 string for bytes") ;;
      b <- of_option (b64_decode s) BytesMustBeBase64 ;;
      Ok (VBytes b)
  | Message m =>
      match get_message_by_name pool m with
      | None => Err (MessageNotFound m)
      | Some md =>
          match v with
          | JObject obj =>
              dm <- set_fields (json_to_pbvalue pool) (fun k => UnknownField k None)
                      md obj (new_message md) ;;
              Ok (VMessage (descriptor dm) (dm_fields dm))
          | _ => Err (Expected "object")
          end
      end
  | Enum e =>
      match as_str v with
      | Some s =>
          n <- of_option (map_get s (enum_values e)) (UnknownEnum s) ;;
          Ok (EnumNumber n)
      | None =>
          match as_i64 v with
          | Some i => Ok (EnumNumber (wrap_i32 i))
          | None => Err EnumMustBeStringOrInt
          end
      end
  end.

(** The loop of [build_from_json] over the body's entries. *)
Definition build_fields (pool : DescriptorPool) (name : string) (desc : MessageDescriptor)
  (map : list (string * Value)) (msg : DynamicMessage) : result DynamicMessage :=
  set_fields (json_to_pbvalue pool) (fun k => UnknownField k (Some name)) desc map msg.

(** [ProtoDyn::build_from_json] (src/proto_dyn.rs, lines 47-61). *)
Definition build_from_json (pool : DescriptorPool) (name : string) (json : Value)
  : result DynamicMessage :=
  desc <- message_desc pool name ;;
  let msg := new_message desc in
  match json with
  | JObject map => build_fields pool name desc map msg
  | _ => Ok msg
  end.

(** ** Protobuf values to JSON *)

(** The loop of [dynamic_to_json], given the JSON form of each set field. *)
Definition dynamic_to_json_tab (d : MessageDescriptor) (fs : list (Z * PbValue))
  (tab : list (Z * Value)) : Value :=
  JObject (fold_left (fun map f =>
                        if has_field_in fs f then
                          match lookup_number (field_number f) tab with
                          | Some jv => map_insert (field_name f) jv map
                          | None => map
                          end
                        else map) (fields d) []).

(** [pbvalue_to_json] (src/proto_dyn.rs, lines 129-152). *)
Fixpoint pbvalue_to_json (v : PbValue) : Value :=
  match v with
  | VBool b => JBool b
  | I32 i | I64 i => json_of_i64 i
  | U32 u | U64 u => json_of_u64 u
  | F32 f => json_of_f32 f
  | F64 f => json_of_f64 f
  | VString s => JString s
  | VBytes b => JString (b64_encode b)
  | VMessage d fs =>
      dynamic_to_json_tab d fs (List.map (fun '(n, x) => (n, pbvalue_to_json x)) fs)
  | EnumNumber n => json_of_i64 n
  | VList l => JArray (List.map pbvalue_to_json l)
  | VMap m =>
      JObject (fold_left (fun out '(k, jv) => map_insert (fmt_map_key k) jv out)
                 (List.map (fun '(k, x) => (k, pbvalue_to_json x)) m) [])
  end.

(** [dynamic_to_json] (src/proto_dyn.rs, lines 118-127). *)
Definition dynamic_to_json (msg : DynamicMessage) : Value :=
  pbvalue_to_json (VMessage (descriptor msg) (dm_fields msg)).

(** ** The broker (src/broker.rs) *)

(** [Broker::normalize_json_for_comparison] (src/broker.rs, lines 95-134). *)
Definition normalize_json_for_comparison (expected : Value) (message : DynamicMessage)
  : result Value :=
  match expected with
  | JObject map =>
      Ok (JObject
        (fold_left (fun normalized '(key, value) =>
           match find (fun f => String.eqb (field_name f) key) (fields (descriptor message)) with
           | Some field_desc =>
               match field_kind field_desc with
               | Enum enum_desc =>
                   match value with
                   | JString enum_name =>
                       match find (fun '(n, _) => String.eqb n enum_name) (enum_values enum_desc) with
                       | Some (_, number) => map_insert key (json_of_i64 number) normalized
                       | None => map_insert key value normalized
                       end
                   | _ => map_insert key value normalized
                   end
               | Message _ => map_insert key value normalized
               | _ => map_insert key value normalized
               end
           | None => map_insert key value normalized
           end) map []))
  | _ => Ok expected
  end.

(** [zmq::Error], the codes a socket call can return here. *)
Inductive zmq_error := EAGAIN | EINTR | ETERM | ENOTSOCK | EFSM | EINVAL.

(** [impl Display for zmq::Error] (zmq_strerror). *)
Definition strerror (e : zmq_error) : string :=
  match e with
  | EAGAIN => "Resource temporarily unavailable"
  | EINTR => "Interrupted system call"
  | ETERM => "Context was terminated"
  | ENOTSOCK => "Socket operation on non-socket"
  | EFSM => "Operation cannot be accomplished in current state"
  | EINVAL => "Invalid argument"
  end.

(** The text of an [anyhow::Error], outermost context first. *)
Definition error_chain (e : error) : list string :=
  match e with
  | Bail m => [m]
  | Context c cause => [c; cause]
  | MessageNotFound n => [("message " ++ n ++ " not found")%string]
  | UnknownField k (Some n) => [("unknown field " ++ k ++ " for " ++ n)%string]
  | UnknownField k None => [("unknown field " ++ k)%string]
  | Expected w => [("expected " ++ w)%string]
  | BytesMustBeBase64 => [("bytes must be base64")%string]
  | UnknownEnum s => [("unknown enum " ++ s)%string]
  | EnumMustBeStringOrInt => [("enum must be string or int")%string]
  | MergeFailed => [("merge failed")%string]
  end.

Fixpoint substringb (p s : string) : bool :=
  String.prefix p s ||
  match s with
  | EmptyString => false
  | String _ r => substringb p r
  end.

(** An error names [name] when some message of its chain contains it. *)
Definition error_mentions (name : string) (e : error) : bool :=
  existsb (substringb name) (error_chain e).

Definition bytes_of_string (s : string) : list Z :=
  List.map (fun c => Z.of_nat (nat_of_ascii c)) (list_ascii_of_string s).

(** One [recv_multipart] call: the frames, or the socket error. *)
Inductive recv_event :=
| Received (parts : list (list Z))
| RecvError (e : zmq_error).

Section Broker.

(** The schema pool, the prost encoder and decoder
    ([DynamicMessage::encode_to_vec], [DynamicMessage::merge]) and
    [String::from_utf8_lossy] are library code, taken as parameters. *)
Variable pool : DescriptorPool.
Variable encode_to_vec : DynamicMessage -> list Z.
Variable merge : DynamicMessage -> list Z -> option DynamicMessage.
Variable from_utf8_lossy : list Z -> string.

(** [ProtoDyn::decode_message] (src/proto_dyn.rs, lines 63-68). *)
Definition decode_message (name : string) (bytes : list Z) : result DynamicMessage :=
  desc <- message_desc pool name ;;
  of_option (merge (new_message desc) bytes) MergeFailed.

(** [Broker::send_message] (src/broker.rs, lines 45-51).  [outbox] is what
    the PUB socket has published so far; [send_err] the outcome of
    [send_multipart]. *)
Definition send_message (outbox : list (list (list Z))) (send_err : option zmq_error)
  (message_name : string) (body : Value) : result unit * list (list (list Z)) :=
  match build_from_json pool message_name body with
  | Ok dm =>
      let payload := encode_to_vec dm in
      let topic := bytes_of_string message_name in
      match send_err with
      | None => (Ok tt, outbox ++ [[topic; payload]])
      | Some e => (Err (Context "send multipart" (strerror e)), outbox)
      end
  | Err e => (Err e, outbox)
  | Panic m => (Panic m, outbox)
  end.

(** The receive loop of [Broker::expect_message] (src/broker.rs, lines
    57-91) over the successive results of [recv_multipart]; [None] when it
    is still waiting after them. *)
Fixpoint expect_loop (message_name : string) (expected : Value)
  (events : list recv_event) : option (result Value) :=
  match events with
  | [] => None
  | RecvError EAGAIN :: _ => Some (Err (Bail ("timeout waiting for " ++ message_name)%string))
  | RecvError e :: _ => Some (Err (Context "recv_multipart failed" (strerror e)))
  | Received parts :: rest =>
      match parts with
      | [t; payload] =>
          let topic := from_utf8_lossy t in
          let msg_name := ("company.project.v1." ++ topic)%string in
          match decode_message msg_name payload with
          | Ok dm =>
              let got_json := dynamic_to_json dm in
              if negb (String.eqb topic message_name) then
                expect_loop message_name expected rest
              else
                match normalize_json_for_comparison expected dm with
                | Ok normalized_expected =>
                    if json_partial_match normalized_expected got_json
                    then Some (Ok got_json)
                    else expect_loop message_name expected rest
                | Err e => Some (Err e)
                | Panic m => Some (Panic m)
                end
          | Err _ => expect_loop message_name expected rest
          | Panic m => Some (Panic m)
          end
      | _ => expect_loop message_name expected rest
      end
  end.

(** [Broker::expect_message] (src/broker.rs, lines 55-92); [set_err] is the
    outcome of [set_rcvtimeo]. *)
Definition expect_message (set_err : option zmq_error) (message_name : string)
  (expected : Value) (events : list recv_event) : option (result Value) :=
  match set_err with
  | Some e => Some (Err (Context "set rcvtimeo" (strerror e)))
  | None => expect_loop message_name expected events
  end.

(** The cucumber step [I send message (\w+)] (src/steps.rs, lines 41-53).
    [broker_started] says whether [world.broker] is set; [from_str] is
    [serde_json::from_str] on the step's DocString. *)
Definition step_send_message (broker_started : bool) (from_str : string -> option Value)
  (docstring : option string) (outbox : list (list (list Z))) (send_err : option zmq_error)
  (name : string) : result unit * list (list (list Z)) :=
  if broker_started then
    match docstring with
    | Some doc =>
        match from_str doc with
        | Some body => send_message outbox send_err name body
        | None => (Panic "invalid JSON in DocString", outbox)
        end
    | None => send_message outbox send_err name (JObject [])
    end
  else (Panic "broker not started", outbox).

(** The cucumber step [I expect message (\w+)] (src/steps.rs, lines 55-67);
    the 5000 ms timeout it passes is the point where [events] ends with
    [RecvError EAGAIN]. *)
Definition step_expect_message (broker_started : bool) (from_str : string -> option Value)
  (docstring : option string) (set_err : option zmq_error) (name : string)
  (events : list recv_event) : option (result unit) :=
  if broker_started then
    let run (expected : Value) :=
      match expect_message set_err name expected events with
      | Some (Ok _) => Some (Ok tt)
      | Some (Err e) => Some (Err e)
      | Some (Panic m) => Some (Panic m)
      | None => None
      end in
    match docstring with
    | Some doc =>
        match from_str doc with
        | Some expected => run expected
        | None => Some (Panic "invalid JSON in DocString")
        end
    | None => run (JObject [])
    end
  else Some (Panic "broker not started").

End Broker.

(** ** A sample schema (the shape of proto/PingPong.proto) *)

Section SampleSchema.
Local Open Scope string_scope.

Definition status_enum : EnumDescriptor :=
  {| enum_full_name := "company.project.v1.Status";
     enum_values := [("OK", 0); ("ERROR", 1)] |}.

Definition scalar_field (name : string) (number : Z) (kind : Kind) : FieldDescriptor :=
  {| field_name := name; field_number := number; field_kind := kind;
     field_card := Single; field_presence := false; field_oneof := None |}.

Definition inner_desc : MessageDescriptor :=
  {| full_name := "company.project.v1.Inner";
     fields := [scalar_field "note" 1 KString] |}.

Definition ping_desc : MessageDescriptor :=
  {| full_name := "company.project.v1.Ping";
     fields := [scalar_field "amount" 1 Int32;
                scalar_field "d" 2 Double;
                scalar_field "status" 3 (Enum status_enum);
                scalar_field "payload" 4 Bytes;
                {| field_name := "inner"; field_number := 5;
                   field_kind := Message "company.project.v1.Inner";
                   field_card := Single; field_presence := true; field_oneof := None |}] |}.

Definition other_ping_desc : MessageDescriptor :=
  {| full_name := "company.other.Ping"; fields := [scalar_field "id" 1 Uint64] |}.

Definition demo_pool : DescriptorPool := [ping_desc; inner_desc; other_ping_desc].

(** A message with a repeated field. *)
Definition batch_desc : MessageDescriptor :=
  {| full_name := "company.project.v1.Batch";
     fields := [{| field_name := "ids"; field_number := 1; field_kind := Int32;
                   field_card := ListField; field_presence := false; field_oneof := None |}] |}.

Definition batch_pool : DescriptorPool := [batch_desc].

End SampleSchema.

(** ** Documents that survive the textual round trip *)

(** Duplicate-freedom of a list, decided with [eqb]. *)
Fixpoint nodupb {A} (eqb : A -> A -> bool) (l : list A) : bool :=
  match l with
  | [] => true
  | x :: r => negb (existsb (eqb x) r) && nodupb eqb r
  end.

(** A descriptor whose field names and field numbers are distinct, as in any
    descriptor accepted by protoc. *)
Definition desc_wf (d : MessageDescriptor) : bool :=
  nodupb String.eqb (List.map field_name (fields d)) &&
  nodupb Z.eqb (List.map field_number (fields d)).

(** The oneof of the field named [k], if any. *)
Definition oneof_of (d : MessageDescriptor) (k : string) : list nat :=
  match get_field_by_name d k with
  | Some f => match field_oneof f with Some o => [o] | None => [] end
  | None => []
  end.

(** Distinct keys, and no two keys naming members of the same oneof. *)
Definition keys_ok (d : MessageDescriptor) (obj : list (string * Value)) : bool :=
  nodupb String.eqb (List.map fst obj) &&
  nodupb Nat.eqb (flat_map (fun kv => oneof_of d (fst kv)) obj).

(** The integer of a JSON number in its canonical form ([PosInt] when
    non-negative, [NegInt] when negative) lying in [lo, hi]. *)
Definition int_text (lo hi : Z) (v : Value) : option Z :=
  match v with
  | JNumber (PosInt n) => if (0 <=? n) && (n <=? hi) then Some n else None
  | JNumber (NegInt n) => if (lo <=? n) && (n <? 0) then Some n else None
  | _ => None
  end.

(** Every key of [obj] names a singular field of [d] whose value satisfies
    [p] for the field's kind and presence. *)
Fixpoint fields_ok (p : Kind -> bool -> Value -> bool) (d : MessageDescriptor)
  (obj : list (string * Value)) : bool :=
  match obj with
  | [] => true
  | (k, x) :: r =>
      match get_field_by_name d k with
      | Some f =>
          match field_card f with
          | Single => p (field_kind f) (field_presence f) x
          | _ => false
          end && fields_ok p d r
      | None => false
      end
  end.

Definition object_roundtrips (p : Kind -> bool -> Value -> bool) (d : MessageDescriptor)
  (obj : list (string * Value)) : bool :=
  desc_wf d && keys_ok d obj && fields_ok p d obj.

(** A value given to a field of a scalar kind [kind] in the field's own
    textual form: a boolean for bool fields, an in-range integer for integer
    and enum fields, a float for float fields (exactly representable in f32
    for [Float32]), a string for string fields, canonical base64 for bytes;
    and, on a field without presence, not the kind's zero default. *)
Definition scalar_roundtrips (kind : Kind) (presence : bool) (v : Value) : bool :=
  let nondefault (pv : PbValue) := presence || negb (is_default pv) in
  match kind with
  | KBool => match v with JBool b => nondefault (VBool b) | _ => false end
  | Int32 | Sint32 | Sfixed32 =>
      match int_text (- 2 ^ 31) (2 ^ 31 - 1) v with
      | Some i => nondefault (I32 i)
      | None => false
      end
  | Int64 | Sint64 | Sfixed64 =>
      match int_text (- 2 ^ 63) i64_max v with
      | Some i => nondefault (I64 i)
      | None => false
      end
  | Uint32 | Fixed32 =>
      match int_text 0 (2 ^ 32 - 1) v with
      | Some u => nondefault (U32 u)
      | None => false
      end
  | Uint64 | Fixed64 =>
      match int_text 0 (2 ^ 64 - 1) v with
      | Some u => nondefault (U64 u)
      | None => false
      end
  | Float32 =>
      match v with
      | JNumber (Float x) =>
          let y := f32_of_f64 x in
          is_finite y && f64_eq (f64_of_f32 y) x && nondefault (F32 y)
      | _ => false
      end
  | Double =>
      match v with
      | JNumber (Float x) => is_finite x && nondefault (F64 x)
      | _ => false
      end
  | KString => match v with JString s => nondefault (VString s) | _ => false end
  | Bytes =>
      match v with
      | JString s =>
          match b64_decode s with
          | Some b => nondefault (VBytes b)
          | None => false
          end
      | _ => false
      end
  | Message _ => false
  | Enum _ =>
      match int_text (- 2 ^ 31) (2 ^ 31 - 1) v with
      | Some i => nondefault (EnumNumber i)
      | None => false
      end
  end.

(** The same for any kind: a value for a message field is an object whose
    keys name singular fields of the message, at most one per oneof, each
    with a value satisfying these conditions. *)
Fixpoint text_roundtrips (pool : DescriptorPool) (kind : Kind) (presence : bool)
  (v : Value) {struct v} : bool :=
  match kind with
  | Message m =>
      match get_message_by_name pool m, v with
      | Some md, JObject obj => object_roundtrips (text_roundtrips pool) md obj
      | _, _ => false
      end
  | _ => scalar_roundtrips kind presence v
  end.

(** A document for the message type [name] that satisfies these conditions. *)
Definition document_roundtrips (pool : DescriptorPool) (name : string) (t : Value) : bool :=
  match message_desc pool name, t with
  | Ok d, JObject obj => object_roundtrips (text_roundtrips pool) d obj
  | _, _ => false
  end.

(** ** Invariants of serde_json values and Rust scalars *)

(** The keys of every object are distinct ([serde_json::Map] is a map). *)
Fixpoint keys_distinct (v : Value) : bool :=
  match v with
  | JArray l => forallb keys_distinct l
  | JObject m =>
      nodupb String.eqb (List.map fst m) &&
      forallb (fun kv => let '(_, x) := kv in keys_distinct x) m
  | _ => true
  end.

(** Every float is finite ([serde_json::Number] holds no NaN or infinity). *)
Fixpoint floats_finite (v : Value) : bool :=
  match v with
  | JNumber (Float x) => is_finite x
  | JArray l => forallb floats_finite l
  | JObject m => forallb (fun kv => let '(_, x) := kv in floats_finite x) m
  | _ => true
  end.

(** A scalar protobuf value within the range of its Rust type ([i32], [i64],
    [u32], [u64], a finite [f32] (a valid binary32 value), a finite [f64],
    bytes [u8]). *)
Definition pb_scalar_in_range (pv : PbValue) : bool :=
  match pv with
  | VBool _ | VString _ => true
  | I32 i | EnumNumber i => (- 2 ^ 31 <=? i) && (i <? 2 ^ 31)
  | I64 i => (- 2 ^ 63 <=? i) && (i <=? i64_max)
  | U32 u => (0 <=? u) && (u <? 2 ^ 32)
  | U64 u => (0 <=? u) && (u <? 2 ^ 64)
  | F32 f => is_finite f && valid_binary 24 128 f
  | F64 f => is_finite f
  | VBytes b => forallb (fun x => (0 <=? x) && (x <? 256)) b
  | VMessage _ _ | VList _ | VMap _ => false
  end.

(** The value the loop of [normalize_json_for_comparison] inserts under
    [key]. *)
Definition normalize_entry (message : DynamicMessage) (key : string) (value : Value) : Value :=
  match find (fun f => String.eqb (field_name f) key) (fields (descriptor message)) with
  | Some field_desc =>
      match field_kind field_desc with
      | Enum enum_desc =>
          match value with
          | JString enum_name =>
              match find (fun '(n, _) => String.eqb n enum_name) (enum_values enum_desc) with
              | Some (_, number) => json_of_i64 number
              | None => value
              end
          | _ => value
          end
      | _ => value
      end
  | None => value
  end.

(** * Properties *)

(** ** Partial matching *)

(** C1: [json_partial_match] on two objects holds iff every expected entry
    has its key in the actual object with a partially matching value; on two
    arrays iff every expected element partially matches some actual element;
    on any other pair iff the two values are equal ([==]). *)
Theorem json_partial_match_spec :
  (forall eo ao,
     json_partial_match (JObject eo) (JObject ao) = true <->
     Forall (fun '(k, ev) => exists av, map_get k ao = Some av /\
                                        json_partial_match ev av = true) eo) /\
  (forall ea aa,
     json_partial_match (JArray ea) (JArray aa) = true <->
     Forall (fun ev => Exists (fun av => json_partial_match ev av = true) aa) ea) /\
  (forall e a,
     match e, a with
     | JObject _, JObject _ | JArray _, JArray _ => True
     | _, _ => json_partial_match e a = value_eqb e a
     end).
Proof.
  split; [|split].
  - intros eo ao. simpl. rewrite forallb_forall, Forall_forall.
    split; intros H [k ev] Hin; specialize (H (k, ev) Hin); simpl in *.
    + destruct (map_get k ao) as [av|]; [now exists av | discriminate].
    + destruct H as [av [-> Hm]]. exact Hm.
  - intros ea aa. simpl. rewrite forallb_forall, Forall_forall.
    split; intros H ev Hin; specialize (H ev Hin).
    + apply existsb_exists in H. apply Exists_exists. exact H.
    + apply Exists_exists in H. apply existsb_exists. exact H.
  - intros [] []; simpl; reflexivity.
Qed.

(** The partial-match laws of the spec, on concrete documents. *)
Section PartialMatchLaws.
Local Open Scope string_scope.

Example partial_match_extra_key :
  json_partial_match (JObject [("a", JNumber (PosInt 1))])
    (JObject [("a", JNumber (PosInt 1)); ("b", JNumber (PosInt 2))]) = true.
Proof. reflexivity. Qed.

Example partial_match_wrong_value :
  json_partial_match (JObject [("a", JNumber (PosInt 2))])
    (JObject [("a", JNumber (PosInt 1)); ("b", JNumber (PosInt 2))]) = false.
Proof. reflexivity. Qed.

Example partial_match_sub_array :
  json_partial_match (JObject [("xs", JArray [JNumber (PosInt 1)])])
    (JObject [("xs", JArray [JNumber (PosInt 1); JNumber (PosInt 2)])]) = true.
Proof. reflexivity. Qed.

Example partial_match_duplicates :
  json_partial_match (JObject [("xs", JArray [JNumber (PosInt 1); JNumber (PosInt 1)])])
    (JObject [("xs", JArray [JNumber (PosInt 1)])]) = true.
Proof. reflexivity. Qed.

End PartialMatchLaws.

(** ** Type-name resolution *)

Lemma find_none_Forall {A} (f : A -> bool) (l : list A) :
  Forall (fun x => f x = false) l -> find f l = None.
Proof.
  induction 1 as [|x l Hx _ IH]; simpl; [reflexivity|]. now rewrite Hx.
Qed.

Lemma find_app_skip {A} (f : A -> bool) (pre post : list A) (x : A) :
  Forall (fun y => f y = false) pre -> f x = true -> find f (pre ++ x :: post) = Some x.
Proof.
  induction 1 as [|y l Hy _ IH]; simpl; intros Hx.
  - now rewrite Hx.
  - rewrite Hy. now apply IH.
Qed.

Lemma get_message_by_name_unique (pool : DescriptorPool) (m : MessageDescriptor) :
  NoDup (map full_name pool) -> In m pool ->
  get_message_by_name pool (full_name m) = Some m.
Proof.
  unfold get_message_by_name. induction pool as [|h pool IH]; simpl; [contradiction|].
  intros Hnd Hin. inversion Hnd as [|? ? Hnotin Hnd']; subst.
  destruct Hin as [<-|Hin].
  - now rewrite String.eqb_refl.
  - destruct (String.eqb_spec (full_name h) (full_name m)) as [Heq|_].
    + exfalso. apply Hnotin. rewrite Heq. now apply in_map.
    + now apply IH.
Qed.

(** C9: [message_desc] returns the schema whose fully-qualified name is the
    given name when there is one (full names are distinct in a pool);
    otherwise the first schema, in pool order, whose last dot-separated
    segment is the name; otherwise it fails with "message ... not found". *)
Theorem message_desc_resolution (pool : DescriptorPool) (name : string) :
  (forall m, NoDup (map full_name pool) -> In m pool -> full_name m = name ->
     message_desc pool name = Ok m) /\
  (forall pre m post,
     Forall (fun m' => full_name m' <> name) pool ->
     pool = pre ++ m :: post ->
     Forall (fun m' => last_segment (full_name m') <> name) pre ->
     last_segment (full_name m) = name ->
     message_desc pool name = Ok m) /\
  (Forall (fun m' => full_name m' <> name /\ last_segment (full_name m') <> name) pool ->
     message_desc pool name = Err (MessageNotFound name)).
Proof.
  split; [|split].
  - intros m Hnd Hin <-. unfold message_desc.
    now rewrite (get_message_by_name_unique pool m Hnd Hin).
  - intros pre m post Hfull -> Hpre Hm. unfold message_desc, get_message_by_name.
    rewrite find_none_Forall.
    + rewrite find_app_skip; [reflexivity| |now apply String.eqb_eq].
      eapply Forall_impl; [|exact Hpre]. intros y Hy. now apply String.eqb_neq.
    + eapply Forall_impl; [|exact Hfull]. intros y Hy. now apply String.eqb_neq.
  - intros H. unfold message_desc, get_message_by_name.
    rewrite find_none_Forall, find_none_Forall; [reflexivity| |].
    + eapply Forall_impl; [|exact H]. intros y [_ Hy]. now apply String.eqb_neq.
    + eapply Forall_impl; [|exact H]. intros y [Hy _]. now apply String.eqb_neq.
Qed.

Lemma message_desc_resolution_witness :
  message_desc demo_pool "Ping"%string = Ok ping_desc /\
  message_desc demo_pool "company.other.Ping"%string = Ok other_ping_desc.
Proof.
  split.
  - apply (proj1 (proj2 (message_desc_resolution demo_pool "Ping"%string))
             [] ping_desc [inner_desc; other_ping_desc]).
    + repeat constructor; apply String.eqb_neq; reflexivity.
    + reflexivity.
    + constructor.
    + reflexivity.
  - apply (proj1 (message_desc_resolution demo_pool "company.other.Ping"%string)).
    + simpl. repeat constructor; simpl; intuition discriminate.
    + simpl. right; right; left. reflexivity.
    + reflexivity.
Defined.

(** ** Expectation normalization *)

Lemma map_insert_fresh (k : string) (v : Value) (m : list (string * Value)) :
  ~ In k (map fst m) -> map_insert k v m = m ++ [(k, v)].
Proof.
  induction m as [|[k' v'] m IH]; simpl; [reflexivity|].
  intros Hn. destruct (String.eqb_spec k k') as [->|_].
  - exfalso. apply Hn. now left.
  - rewrite IH; [reflexivity|]. intros H. apply Hn. now right.
Qed.

Lemma fold_insert_fresh
  (F : list (string * Value) -> string * Value -> list (string * Value))
  (G : string -> Value -> Value) :
  (forall acc k v, F acc (k, v) = map_insert k (G k v) acc) ->
  forall m acc,
    NoDup (map fst m) ->
    (forall k, In k (map fst acc) -> ~ In k (map fst m)) ->
    fold_left F m acc = acc ++ map (fun '(k, v) => (k, G k v)) m.
Proof.
  intros HF m. induction m as [|[k v] m IH]; intros acc Hnd Hdis; simpl.
  - now rewrite app_nil_r.
  - inversion Hnd as [|? ? Hk Hnd']; subst.
    rewrite HF, map_insert_fresh.
    + rewrite IH; [now rewrite <- app_assoc| exact Hnd'|].
      intros k' Hin. rewrite map_app in Hin. apply in_app_or in Hin as [Hin|[<-|[]]].
      * intros Hm. apply (Hdis k' Hin). now right.
      * exact Hk.
    + intros Hin. apply (Hdis k Hin). now left.
Qed.

Lemma find_enum_value (l : list (string * Z)) (s : string) :
  match find (fun '(n, _) => String.eqb n s) l with
  | Some (_, number) => map_get s l = Some number
  | None => map_get s l = None
  end.
Proof.
  induction l as [|[n z] l IH]; simpl; [reflexivity|].
  rewrite (String.eqb_sym s n). destruct (String.eqb n s); [reflexivity|exact IH].
Qed.

(** C3: normalizing an expectation object never fails and keeps its keys in
    order; a top-level value whose field (on the decoded message's schema) is
    an enumeration and which is a symbolic name found in the enum's table
    becomes that name's number; every other value, nested ones included, is
    kept unchanged (unknown names too).  A non-object is returned as is. *)
Theorem normalize_json_for_comparison_shallow (expected : Value) (message : DynamicMessage) :
  match expected with
  | JObject map =>
      NoDup (List.map fst map) ->
      exists out,
        normalize_json_for_comparison expected message = Ok (JObject out) /\
        Forall2 (fun '(k, v) '(k', v') =>
          k' = k /\
          (forall f e s n,
             get_field_by_name (descriptor message) k = Some f ->
             field_kind f = Enum e -> v = JString s ->
             map_get s (enum_values e) = Some n -> v' = json_of_i64 n) /\
          ((forall f e s n,
              get_field_by_name (descriptor message) k = Some f ->
              field_kind f = Enum e -> v = JString s ->
              map_get s (enum_values e) <> Some n) -> v' = v)) map out
  | _ => normalize_json_for_comparison expected message = Ok expected
  end.
Proof.
  destruct expected as [| | | | |map]; try reflexivity.
  intros Hnd. unfold normalize_json_for_comparison.
  set (G := fun key value =>
    match find (fun f => String.eqb (field_name f) key) (fields (descriptor message)) with
    | Some field_desc =>
        match field_kind field_desc with
        | Enum enum_desc =>
            match value with
            | JString enum_name =>
                match find (fun '(n, _) => String.eqb n enum_name) (enum_values enum_desc) with
                | Some (_, number) => json_of_i64 number
                | None => value
                end
            | _ => value
            end
        | _ => value
        end
    | None => value
    end).
  rewrite (fold_insert_fresh _ G).
  - eexists; split; [reflexivity|]. simpl.
    induction map as [|[k v] map IH]; simpl; constructor.
    + split; [reflexivity|]. unfold G, get_field_by_name. split.
      * intros f e s n -> Hk -> Hn. rewrite Hk.
        pose proof (find_enum_value (enum_values e) s) as Hf.
        destruct (find _ (enum_values e)) as [[? number]|];
          rewrite Hn in Hf; [now inversion Hf|discriminate].
      * intros Hno. destruct (find _ (fields (descriptor message))) as [f|] eqn:Hfind;
          [|reflexivity].
        destruct (field_kind f) eqn:Hk; try reflexivity.
        destruct v; try reflexivity.
        pose proof (find_enum_value (enum_values e) s) as Hf.
        destruct (find _ (enum_values e)) as [[? number]|]; [|reflexivity].
        exfalso. now apply (Hno f e s number).
    + apply IH. now inversion Hnd.
  - intros acc k v. unfold G.
    destruct (find _ (fields (descriptor message))) as [f|]; [|reflexivity].
    destruct (field_kind f); try reflexivity.
    destruct v; try reflexivity.
    destruct (find _ (enum_values e)) as [[? ?]|]; reflexivity.
  - exact Hnd.
  - intros k [].
Qed.

Lemma normalize_json_for_comparison_shallow_witness :
  NoDup ["status"%string] /\
  exists out,
    normalize_json_for_comparison (JObject [("status"%string, JString "OK")])
      (new_message ping_desc) = Ok (JObject out).
Proof.
  split; [repeat constructor; intros []|].
  destruct (normalize_json_for_comparison_shallow
              (JObject [("status"%string, JString "OK")]) (new_message ping_desc))
    as [out [H _]]; [repeat constructor; intros []|].
  exists out. exact H.
Defined.

(** The enum example of the spec: ["OK"] normalizes to [0], which matches a
    decoded message whose [status] is [0]. *)
Example normalize_status_ok :
  let decoded := {| descriptor := ping_desc; dm_fields := [(3, EnumNumber 0)] |} in
  normalize_json_for_comparison (JObject [("status"%string, JString "OK")]) decoded
  = Ok (JObject [("status"%string, JNumber (PosInt 0))]) /\
  json_partial_match (JObject [("status"%string, JNumber (PosInt 0))])
    (JObject [("status"%string, JNumber (PosInt 0))]) = true.
Proof. split; reflexivity. Qed.

(** ** Enumeration fields *)

Lemma wrap_i32_small (i : Z) : - 2 ^ 31 <= i < 2 ^ 31 -> wrap_i32 i = i.
Proof.
  intros Hr. unfold wrap_i32. cbv zeta.
  destruct (Z.ltb_spec i 0).
  - replace (i mod 2 ^ 32) with (i + 2 ^ 32)
      by (apply Z.mod_unique with (-1); lia).
    destruct (Z.geb_spec (i + 2 ^ 32) (2 ^ 31)); lia.
  - rewrite Z.mod_small by lia.
    destruct (Z.geb_spec i (2 ^ 31)); lia.
Qed.

(** C7: an enumeration field given the raw integer 2^32 + 1, which fits in
    i64 but not in i32, stores enum number 1 ([as i32] keeps the low 32 bits)
    instead of the integer as is; the JSON of the built message shows 1. *)
Theorem json_to_pbvalue_enum_raw_integer_wraps :
  bind (build_from_json demo_pool "Ping"%string
          (JObject [("status"%string, JNumber (PosInt 4294967297))]))
       (fun m => Ok (dynamic_to_json m))
  = Ok (JObject [("status"%string, JNumber (PosInt 1))]) /\
  json_to_pbvalue demo_pool (Enum status_enum) (JNumber (PosInt 4294967297))
  = Ok (EnumNumber 1) /\
  json_to_pbvalue demo_pool (Enum status_enum) (JNumber (PosInt 4294967297))
  <> Ok (EnumNumber 4294967297).
Proof. split; [reflexivity|split; [reflexivity|]]. simpl. intros H. inversion H. Qed.



(** ** Numeric fields *)

(** C8: an int32 field accepts 2^31, which does not fit in i32, and stores
    it wrapped to -2^31 instead of rejecting it as "expected i32". *)
Theorem build_int32_out_of_range_wraps :
  bind (build_from_json demo_pool "Ping"%string
          (JObject [("amount"%string, JNumber (PosInt 2147483648))]))
       (fun m => Ok (dynamic_to_json m))
  = Ok (JObject [("amount"%string, JNumber (NegInt (-2147483648)))]) /\
  json_to_pbvalue demo_pool Int32 (JNumber (PosInt 2147483648)) = Ok (I32 (-2147483648)).
Proof. split; reflexivity. Qed.

(** ** The receive loop of [expect] *)

Section ExpectLoop.
Variable pool : DescriptorPool.
Variable merge : DynamicMessage -> list Z -> option DynamicMessage.
Variable from_utf8_lossy : list Z -> string.

(** C10: a received multipart message that does not have exactly two frames
    is dropped: the loop goes on with the next receive, as if it had never
    arrived (so it never surfaces as an error). *)
Theorem expect_loop_skips_wrong_frame_count (message_name : string) (expected : Value)
  (parts : list (list Z)) (rest : list recv_event) :
  length parts <> 2%nat ->
  expect_loop pool merge from_utf8_lossy message_name expected (Received parts :: rest)
  = expect_loop pool merge from_utf8_lossy message_name expected rest.
Proof.
  intros Hlen. destruct parts as [|p0 [|p1 [|p2 ps]]]; simpl; try reflexivity.
  exfalso. now apply Hlen.
Qed.

Lemma normalize_json_for_comparison_ok (expected : Value) (message : DynamicMessage) :
  exists v, normalize_json_for_comparison expected message = Ok v.
Proof. destruct expected; eexists; reflexivity. Qed.

Lemma prefix_app (p s : string) : String.prefix p (p ++ s) = true.
Proof.
  induction p as [|c p IH]; simpl; [destruct s; reflexivity|].
  destruct (ascii_dec c c) as [_|n]; [exact IH|contradiction].
Qed.

Lemma substringb_unfold (p s : string) :
  substringb p s =
  String.prefix p s || match s with EmptyString => false | String _ r => substringb p r end.
Proof. destruct s; reflexivity. Qed.

Lemma substringb_app (p s : string) : substringb p (s ++ p) = true.
Proof.
  induction s as [|c s IH]; rewrite substringb_unfold.
  - assert (Hr : String.prefix p p = true).
    { induction p as [|c p IHp]; simpl; [reflexivity|].
      destruct (ascii_dec c c) as [_|n]; [exact IHp|contradiction]. }
    change (append EmptyString p) with p. now rewrite Hr.
  - change (append (String c s) p) with (String c (append s p)). cbv iota. rewrite IH.
    apply orb_true_r.
Qed.

Lemma decode_message_no_panic (name : string) (bytes : list Z) (m : string) :
  decode_message pool merge name bytes <> Panic m.
Proof.
  unfold decode_message, message_desc.
  destruct (get_message_by_name pool name); simpl;
    [|destruct (find _ pool); simpl];
    try destruct (merge _ bytes); discriminate.
Qed.

(** The outcomes of [expect_loop]: a match, the timeout, or another
    receive error. *)
Lemma expect_loop_outcomes (message_name : string) (expected : Value)
  (events : list recv_event) (r : result Value) :
  expect_loop pool merge from_utf8_lossy message_name expected events = Some r ->
  (exists v, r = Ok v) \/
  r = Err (Bail ("timeout waiting for " ++ message_name)) \/
  (exists z, z <> EAGAIN /\ r = Err (Context "recv_multipart failed" (strerror z))).
Proof.
  induction events as [|ev events IH]; [discriminate|].
  destruct ev as [parts|z].
  - cbn [expect_loop].
    destruct parts as [|t [|payload [|p2 ps]]]; try exact IH.
    destruct (decode_message pool merge _ payload) as [dm|e|m] eqn:Hd;
      [| exact IH | exfalso; eapply decode_message_no_panic; exact Hd].
    destruct (negb _); [exact IH|].
    destruct (normalize_json_for_comparison_ok expected dm) as [nv ->].
    destruct (json_partial_match nv _); [|exact IH].
    intros H. injection H as <-. left. eexists; reflexivity.
  - destruct z; cbn [expect_loop]; intros H; injection H as <-;
      [right; left; reflexivity
      | right; right; exists EINTR | right; right; exists ETERM
      | right; right; exists ENOTSOCK | right; right; exists EFSM
      | right; right; exists EINVAL];
      split; solve [discriminate | reflexivity].
Qed.

(** C4 (amended): a received two-frame message whose payload does not decode
    against the schema named by its topic is dropped and the loop goes on;
    [expect] ends only with the matching message, the timeout error
    "timeout waiting for <type>" (which names the awaited type), another
    receive error (context "recv_multipart failed" over the socket error) or,
    before any receive, the error of setting the receive timeout (context
    "set rcvtimeo"); it never panics. *)
Theorem expect_message_error_policy (set_err : option zmq_error)
  (message_name : string) (expected : Value) :
  (forall t payload rest e,
     decode_message pool merge ("company.project.v1." ++ from_utf8_lossy t) payload = Err e ->
     expect_loop pool merge from_utf8_lossy message_name expected
       (Received [t; payload] :: rest)
     = expect_loop pool merge from_utf8_lossy message_name expected rest) /\
  (forall events r,
     expect_message pool merge from_utf8_lossy set_err message_name expected events = Some r ->
     (exists v, r = Ok v) \/
     r = Err (Bail ("timeout waiting for " ++ message_name)) \/
     (exists z, z <> EAGAIN /\ r = Err (Context "recv_multipart failed" (strerror z))) \/
     (exists z, set_err = Some z /\ r = Err (Context "set rcvtimeo" (strerror z)))) /\
  error_mentions message_name (Bail ("timeout waiting for " ++ message_name)) = true.
Proof.
  split; [|split].
  - intros t payload rest e Hd. cbn [expect_loop]. now rewrite Hd.
  - intros events r. unfold expect_message. destruct set_err as [z|].
    + intros H. injection H as <-. right; right; right. now exists z.
    + intros H. destruct (expect_loop_outcomes message_name expected events r H)
        as [Hok|[Ht|Hz]]; auto.
  - unfold error_mentions, error_chain. cbn [existsb]. now rewrite substringb_app.
Qed.

End ExpectLoop.

Lemma expect_message_error_policy_witness :
  expect_loop [] (fun _ _ => None) (fun _ => EmptyString) "Ping"%string (JObject [])
    [Received [[1]; [2]]; RecvError EAGAIN]
  = expect_loop [] (fun _ _ => None) (fun _ => EmptyString) "Ping"%string (JObject [])
      [RecvError EAGAIN].
Proof.
  apply (proj1 (expect_message_error_policy [] (fun _ _ => None) (fun _ => EmptyString)
                  None "Ping"%string (JObject []))
           [1] [2] [RecvError EAGAIN] (MessageNotFound "company.project.v1."%string)).
  reflexivity.
Defined.

(** C4 (as stated): a receive failure other than the timeout surfaces as
    "recv_multipart failed: Interrupted system call", which does not name the
    awaited type. *)
Lemma expect_transport_error_does_not_name_type :
  expect_message [] (fun _ _ => None) (fun _ => EmptyString) None "Ping"%string
    (JObject []) [RecvError EINTR]
  = Some (Err (Context "recv_multipart failed" "Interrupted system call")) /\
  error_mentions "Ping"%string
    (Context "recv_multipart failed" "Interrupted system call") = false.
Proof. split; reflexivity. Qed.

Lemma expect_loop_skips_wrong_frame_count_witness :
  length [[1]; [2]; [3]] <> 2%nat /\
  expect_loop demo_pool (fun _ _ => None) (fun _ => EmptyString) "Ping"%string (JObject [])
    [Received [[1]; [2]; [3]]; RecvError EAGAIN]
  = Some (Err (Bail "timeout waiting for Ping")).
Proof.
  split; [discriminate|].
  rewrite (expect_loop_skips_wrong_frame_count demo_pool (fun _ _ => None)
             (fun _ => EmptyString) "Ping"%string (JObject []) [[1]; [2]; [3]]
             [RecvError EAGAIN]); [reflexivity|discriminate].
Defined.

(** ** Textual round trip *)

Lemma sextet_of_char_inv (c : ascii) (n : Z) :
  sextet_of_char c = Some n -> char_of_sextet n = c /\ 0 <= n < 64.
Proof.
  destruct c as [[] [] [] [] [] [] [] []]; intros H; vm_compute in H;
    first [discriminate | injection H as <-; split; [vm_compute; reflexivity | lia]].
Qed.

Lemma sextet_of_char_pad : sextet_of_char pad = None.
Proof. reflexivity. Qed.

Lemma b64_group3 (a b c d : Z) :
  0 <= a < 64 -> 0 <= b < 64 -> 0 <= c < 64 -> 0 <= d < 64 ->
  (a * 4 + b / 16) / 4 = a /\
  ((a * 4 + b / 16) mod 4) * 16 + ((b mod 16) * 16 + c / 4) / 16 = b /\
  (((b mod 16) * 16 + c / 4) mod 16) * 4 + ((c mod 4) * 64 + d) / 64 = c /\
  ((c mod 4) * 64 + d) mod 64 = d.
Proof. intros. repeat split; Z.div_mod_to_equations; lia. Qed.

Lemma b64_group2 (a b c : Z) :
  0 <= a < 64 -> 0 <= b < 64 -> 0 <= c < 64 -> c mod 4 = 0 ->
  (a * 4 + b / 16) / 4 = a /\
  ((a * 4 + b / 16) mod 4) * 16 + ((b mod 16) * 16 + c / 4) / 16 = b /\
  (((b mod 16) * 16 + c / 4) mod 16) * 4 = c.
Proof. intros. repeat split; Z.div_mod_to_equations; lia. Qed.

Lemma b64_group1 (a b : Z) :
  0 <= a < 64 -> 0 <= b < 64 -> b mod 16 = 0 ->
  (a * 4 + b / 16) / 4 = a /\ ((a * 4 + b / 16) mod 4) * 16 = b.
Proof. intros. repeat split; Z.div_mod_to_equations; lia. Qed.

(** Decoding accepts only canonical text, so encoding gives it back. *)
Lemma b64_decode_chars_inv (n : nat) :
  forall cs bs, (length cs <= n)%nat -> b64_decode_chars cs = Some bs -> b64_encode_bytes bs = cs.
Proof.
  induction n as [|n IH]; intros cs bs Hlen H.
  - destruct cs; [injection H as <-; reflexivity | simpl in Hlen; lia].
  - destruct cs as [|a [|b [|c [|d r]]]]; try discriminate H; [injection H as <-; reflexivity|].
    cbn [b64_decode_chars] in H.
    destruct (sextet_of_char a) as [a'|] eqn:Ea; [|discriminate H].
    destruct (sextet_of_char b) as [b'|] eqn:Eb; [|discriminate H].
    apply sextet_of_char_inv in Ea as [Ea Ra]. apply sextet_of_char_inv in Eb as [Eb Rb].
    assert (Hgen : forall rest,
      match sextet_of_char c, sextet_of_char d, b64_decode_chars r with
      | Some c', Some d', Some rest =>
          Some ((a' * 4 + b' / 16) :: ((b' mod 16) * 16 + c' / 4)
                :: ((c' mod 4) * 64 + d') :: rest)
      | _, _, _ => None
      end = Some rest -> b64_encode_bytes rest = a :: b :: c :: d :: r).
    { intros rest Hr.
      destruct (sextet_of_char c) as [c'|] eqn:Ec; [|discriminate Hr].
      destruct (sextet_of_char d) as [d'|] eqn:Ed; [|discriminate Hr].
      destruct (b64_decode_chars r) as [rest'|] eqn:Er; [|discriminate Hr].
      injection Hr as <-.
      apply sextet_of_char_inv in Ec as [Ec Rc]. apply sextet_of_char_inv in Ed as [Ed Rd].
      destruct (b64_group3 a' b' c' d' Ra Rb Rc Rd) as [E1 [E2 [E3 E4]]].
      cbn [b64_encode_bytes]. rewrite E1, E2, E3, E4, Ea, Eb, Ec, Ed.
      rewrite (IH r rest'); [reflexivity | simpl in Hlen; lia | exact Er]. }
    destruct r as [|r0 r'];
      [|exact (Hgen bs H)].
    destruct (Ascii.eqb_spec c pad) as [Hc|Hc]; destruct (Ascii.eqb_spec d pad) as [Hd|Hd];
      try exact (Hgen bs H).
    + destruct (b' mod 16 =? 0) eqn:Hb; [|discriminate H]. injection H as <-.
      apply Z.eqb_eq in Hb. destruct (b64_group1 a' b' Ra Rb Hb) as [E1 E2].
      cbn [b64_encode_bytes]. rewrite E1, E2, Ea, Eb, Hc, Hd. reflexivity.
    + destruct (sextet_of_char c) as [c'|] eqn:Ec; [|discriminate H].
      destruct (c' mod 4 =? 0) eqn:Hc'; [|discriminate H]. injection H as <-.
      apply Z.eqb_eq in Hc'. apply sextet_of_char_inv in Ec as [Ec Rc].
      destruct (b64_group2 a' b' c' Ra Rb Rc Hc') as [E1 [E2 E3]].
      cbn [b64_encode_bytes]. rewrite E1, E2, E3, Ea, Eb, Ec, Hd. reflexivity.
Qed.

Lemma b64_decode_inv (s : string) (b : list Z) : b64_decode s = Some b -> b64_encode b = s.
Proof.
  unfold b64_decode, b64_encode. intros H.
  rewrite (b64_decode_chars_inv _ _ _ (le_n _) H). apply string_of_list_ascii_of_string.
Qed.

Lemma f64_eq_refl (x : spec_float) : is_finite x = true -> f64_eq x x = true.
Proof.
  destruct x as [s|s| |s m e]; try discriminate; intros _; [reflexivity|].
  unfold f64_eq, SFeqb, SFcompare. destruct s; rewrite Z.compare_refl, Pos.compare_cont_refl;
    reflexivity.
Qed.

Lemma int_text_cases (lo hi : Z) (v : Value) (i : Z) :
  int_text lo hi v = Some i ->
  (v = JNumber (PosInt i) /\ 0 <= i <= hi) \/ (v = JNumber (NegInt i) /\ lo <= i < 0).
Proof.
  destruct v as [| |[n|n|x]| | |]; try discriminate; simpl.
  - destruct ((0 <=? n) && (n <=? hi)) eqn:E; [|discriminate]. intros [= <-].
    apply andb_true_iff in E as [E1 E2]. apply Z.leb_le in E1, E2. left; auto.
  - destruct ((lo <=? n) && (n <? 0)) eqn:E; [|discriminate]. intros [= <-].
    apply andb_true_iff in E as [E1 E2]. apply Z.leb_le in E1. apply Z.ltb_lt in E2. right; auto.
Qed.

Lemma value_eqb_json_of_i64 (i : Z) (v : Value) :
  (v = JNumber (PosInt i) /\ 0 <= i) \/ (v = JNumber (NegInt i) /\ i < 0) ->
  value_eqb (json_of_i64 i) v = true.
Proof.
  unfold json_of_i64. intros [[-> H]|[-> H]]; destruct (Z.ltb_spec i 0); try lia;
    apply Z.eqb_refl.
Qed.

Lemma as_i64_int_text (i : Z) (v : Value) :
  (v = JNumber (PosInt i) /\ 0 <= i <= i64_max) \/ (v = JNumber (NegInt i) /\ i < 0) ->
  as_i64 v = Some i /\ as_str v = None.
Proof.
  intros [[-> H]|[-> H]]; simpl; [|auto].
  destruct (Z.leb_spec i i64_max); [auto | lia].
Qed.

Ltac int_text_sign v i E Hv :=
  apply int_text_cases in E;
  assert (Hv : (v = JNumber (PosInt i) /\ 0 <= i <= i64_max) \/
               (v = JNumber (NegInt i) /\ i < 0))
    by (destruct E as [[? ?]|[? ?]]; [left|right]; unfold i64_max in *; split; auto; lia).

(** The scalar kinds: a value in the field's own form converts to a value of
    the field's kind that renders back to it. *)
Lemma scalar_roundtrips_sound (pool : DescriptorPool) (kind : Kind) (presence : bool) (v : Value) :
  (forall m, kind <> Message m) ->
  scalar_roundtrips kind presence v = true ->
  exists pv, json_to_pbvalue pool kind v = Ok pv /\ is_valid pv kind = true /\
             (presence || negb (is_default pv)) = true /\
             value_eqb (pbvalue_to_json pv) v = true.
Proof.
  intros Hm H.
  destruct kind as [| | | | | | | | | | | | | | |m|e]; unfold scalar_roundtrips in H;
    try (exfalso; exact (Hm _ eq_refl)).
  (* Double *)
  - destruct v as [| |[n|n|x]| | |]; try discriminate.
    apply andb_true_iff in H as [Hfin Hnd]. exists (F64 x). repeat split; auto.
    unfold pbvalue_to_json, json_of_f64. rewrite Hfin. exact (f64_eq_refl x Hfin).
  (* Float32 *)
  - destruct v as [| |[n|n|x]| | |]; try discriminate.
    apply andb_true_iff in H as [[Hfin Heq]%andb_true_iff Hnd].
    exists (F32 (f32_of_f64 x)). repeat split; auto.
    unfold pbvalue_to_json, json_of_f32. rewrite Hfin. exact Heq.
  (* Int32, Int64, Uint32, Uint64, Sint32, Sint64, Fixed32, Fixed64, Sfixed32, Sfixed64 *)
  - destruct (int_text _ _ v) as [i|] eqn:E; [|discriminate].
    int_text_sign v i E Hv.
    assert (Hr : - 2 ^ 31 <= i < 2 ^ 31) by (destruct E as [[? ?]|[? ?]]; lia).
    destruct (as_i64_int_text i v Hv) as [Hi _].
    exists (I32 i). repeat split; auto.
    + destruct Hv as [[-> _]|[-> _]]; cbn -[as_i64]; rewrite Hi; cbn; now rewrite wrap_i32_small.
    + apply value_eqb_json_of_i64. destruct Hv as [[? ?]|[? ?]]; [left|right]; split; auto; lia.
  - destruct (int_text _ _ v) as [i|] eqn:E; [|discriminate].
    int_text_sign v i E Hv.
    destruct (as_i64_int_text i v Hv) as [Hi _].
    exists (I64 i). repeat split; auto.
    + destruct Hv as [[-> _]|[-> _]]; cbn -[as_i64]; rewrite Hi; reflexivity.
    + apply value_eqb_json_of_i64. destruct Hv as [[? ?]|[? ?]]; [left|right]; split; auto; lia.
  - destruct (int_text _ _ v) as [u|] eqn:E; [|discriminate].
    apply int_text_cases in E as [[-> Hu]|[_ Hu]]; [|lia]. exists (U32 u).
    repeat split; auto.
    + cbn. unfold wrap_u32. now rewrite Z.mod_small by lia.
    + apply Z.eqb_refl.
  - destruct (int_text _ _ v) as [u|] eqn:E; [|discriminate].
    apply int_text_cases in E as [[-> Hu]|[_ Hu]]; [|lia]. exists (U64 u).
    repeat split; auto. apply Z.eqb_refl.
  - destruct (int_text _ _ v) as [i|] eqn:E; [|discriminate].
    int_text_sign v i E Hv.
    assert (Hr : - 2 ^ 31 <= i < 2 ^ 31) by (destruct E as [[? ?]|[? ?]]; lia).
    destruct (as_i64_int_text i v Hv) as [Hi _].
    exists (I32 i). repeat split; auto.
    + destruct Hv as [[-> _]|[-> _]]; cbn -[as_i64]; rewrite Hi; cbn; now rewrite wrap_i32_small.
    + apply value_eqb_json_of_i64. destruct Hv as [[? ?]|[? ?]]; [left|right]; split; auto; lia.
  - destruct (int_text _ _ v) as [i|] eqn:E; [|discriminate].
    int_text_sign v i E Hv.
    destruct (as_i64_int_text i v Hv) as [Hi _].
    exists (I64 i). repeat split; auto.
    + destruct Hv as [[-> _]|[-> _]]; cbn -[as_i64]; rewrite Hi; reflexivity.
    + apply value_eqb_json_of_i64. destruct Hv as [[? ?]|[? ?]]; [left|right]; split; auto; lia.
  - destruct (int_text _ _ v) as [u|] eqn:E; [|discriminate].
    apply int_text_cases in E as [[-> Hu]|[_ Hu]]; [|lia]. exists (U32 u).
    repeat split; auto.
    + cbn. unfold wrap_u32. now rewrite Z.mod_small by lia.
    + apply Z.eqb_refl.
  - destruct (int_text _ _ v) as [u|] eqn:E; [|discriminate].
    apply int_text_cases in E as [[-> Hu]|[_ Hu]]; [|lia]. exists (U64 u).
    repeat split; auto. apply Z.eqb_refl.
  - destruct (int_text _ _ v) as [i|] eqn:E; [|discriminate].
    int_text_sign v i E Hv.
    assert (Hr : - 2 ^ 31 <= i < 2 ^ 31) by (destruct E as [[? ?]|[? ?]]; lia).
    destruct (as_i64_int_text i v Hv) as [Hi _].
    exists (I32 i). repeat split; auto.
    + destruct Hv as [[-> _]|[-> _]]; cbn -[as_i64]; rewrite Hi; cbn; now rewrite wrap_i32_small.
    + apply value_eqb_json_of_i64. destruct Hv as [[? ?]|[? ?]]; [left|right]; split; auto; lia.
  - destruct (int_text _ _ v) as [i|] eqn:E; [|discriminate].
    int_text_sign v i E Hv.
    destruct (as_i64_int_text i v Hv) as [Hi _].
    exists (I64 i). repeat split; auto.
    + destruct Hv as [[-> _]|[-> _]]; cbn -[as_i64]; rewrite Hi; reflexivity.
    + apply value_eqb_json_of_i64. destruct Hv as [[? ?]|[? ?]]; [left|right]; split; auto; lia.
  (* KBool *)
  - destruct v as [|b| | | |]; try discriminate.
    exists (VBool b). repeat split; auto. destruct b; reflexivity.
  (* KString *)
  - destruct v as [| | |s| |]; try discriminate.
    exists (VString s). repeat split; auto. apply String.eqb_refl.
  (* Bytes *)
  - destruct v as [| | |s| |]; try discriminate.
    destruct (b64_decode s) as [b|] eqn:E; [|discriminate].
    exists (VBytes b). repeat split; auto.
    + cbn -[b64_decode]. rewrite E. reflexivity.
    + cbn -[b64_encode]. rewrite (b64_decode_inv s b E). apply String.eqb_refl.
  (* Enum *)
  - destruct (int_text _ _ v) as [i|] eqn:E; [|discriminate].
    int_text_sign v i E Hv.
    assert (Hr : - 2 ^ 31 <= i < 2 ^ 31) by (destruct E as [[? ?]|[? ?]]; lia).
    destruct (as_i64_int_text i v Hv) as [Hi Hs].
    exists (EnumNumber i). repeat split; auto.
    + destruct Hv as [[-> _]|[-> _]]; cbn -[as_i64 as_str]; rewrite Hs, Hi; cbn;
        now rewrite wrap_i32_small.
    + apply value_eqb_json_of_i64. destruct Hv as [[? ?]|[? ?]]; [left|right]; split; auto; lia.
Qed.

Lemma nodupb_NoDup {A} (eqb : A -> A -> bool) :
  (forall x y, eqb x y = true <-> x = y) ->
  forall l, nodupb eqb l = true -> NoDup l.
Proof.
  intros Heq l. induction l as [|x r IH]; simpl; intros H; [constructor|].
  apply andb_true_iff in H as [Hx Hr]. constructor; [|exact (IH Hr)].
  intros Hin. apply negb_true_iff in Hx.
  assert (existsb (eqb x) r = true) as Hex
    by (apply existsb_exists; exists x; split; [exact Hin | apply Heq; reflexivity]).
  congruence.
Qed.

Lemma NoDup_map_inj {A B} (h : A -> B) (l : list A) (a b : A) :
  NoDup (List.map h l) -> In a l -> In b l -> h a = h b -> a = b.
Proof.
  induction l as [|x l IH]; simpl; [tauto|]. intros Hnd Ha Hb Hab.
  inversion Hnd as [|? ? Hx Hnd']; subst.
  destruct Ha as [<-|Ha], Hb as [<-|Hb]; auto.
  - exfalso. apply Hx. rewrite Hab. now apply in_map.
  - exfalso. apply Hx. rewrite <- Hab. now apply in_map.
Qed.

Lemma desc_wf_NoDup (d : MessageDescriptor) :
  desc_wf d = true ->
  NoDup (List.map field_name (fields d)) /\ NoDup (List.map field_number (fields d)).
Proof.
  unfold desc_wf. intros H. apply andb_true_iff in H as [H1 H2]. split.
  - exact (nodupb_NoDup _ String.eqb_eq _ H1).
  - exact (nodupb_NoDup _ Z.eqb_eq _ H2).
Qed.

Lemma keys_ok_NoDup (d : MessageDescriptor) (obj : list (string * Value)) :
  keys_ok d obj = true ->
  NoDup (List.map fst obj) /\ NoDup (flat_map (fun kv => oneof_of d (fst kv)) obj).
Proof.
  unfold keys_ok. intros H. apply andb_true_iff in H as [H1 H2]. split.
  - exact (nodupb_NoDup _ String.eqb_eq _ H1).
  - exact (nodupb_NoDup _ Nat.eqb_eq _ H2).
Qed.

Lemma get_field_by_name_some (d : MessageDescriptor) (k : string) (f : FieldDescriptor) :
  get_field_by_name d k = Some f -> In f (fields d) /\ field_name f = k.
Proof.
  unfold get_field_by_name. intros H. apply find_some in H as [Hin Heq].
  apply String.eqb_eq in Heq. auto.
Qed.

Lemma field_number_inj (d : MessageDescriptor) (f g : FieldDescriptor) :
  desc_wf d = true -> In f (fields d) -> In g (fields d) ->
  field_number f = field_number g -> f = g.
Proof.
  intros Hwf. apply NoDup_map_inj. exact (proj2 (desc_wf_NoDup d Hwf)).
Qed.

Lemma lookup_number_In {A} (n : Z) (l : list (Z * A)) (v : A) :
  lookup_number n l = Some v -> In (n, v) l.
Proof.
  induction l as [|[m x] l IH]; simpl; [discriminate|].
  destruct (Z.eqb_spec n m) as [->|_]; [intros [= <-]; now left | intros H; right; auto].
Qed.

Lemma In_lookup_number {A} (n : Z) (l : list (Z * A)) (v : A) :
  In (n, v) l -> exists v', lookup_number n l = Some v'.
Proof.
  induction l as [|[m x] l IH]; simpl; [tauto|]. intros [Heq|Hin].
  - injection Heq as -> ->. rewrite Z.eqb_refl. eauto.
  - destruct (n =? m); eauto.
Qed.

Lemma lookup_number_map {A B} (g : A -> B) (n : Z) (l : list (Z * A)) :
  lookup_number n (List.map (fun '(m, x) => (m, g x)) l) = option_map g (lookup_number n l).
Proof.
  induction l as [|[m x] l IH]; simpl; [reflexivity|]. destruct (n =? m); auto.
Qed.

Lemma map_get_In {A} (k : string) (m : list (string * A)) (x : A) :
  map_get k m = Some x -> In (k, x) m.
Proof.
  induction m as [|[k' y] m IH]; simpl; [discriminate|].
  destruct (String.eqb_spec k k') as [->|_]; [intros [= <-]; now left | intros H; right; auto].
Qed.

Lemma In_map_get {A} (k : string) (m : list (string * A)) (x : A) :
  NoDup (List.map fst m) -> In (k, x) m -> map_get k m = Some x.
Proof.
  induction m as [|[k' y] m IH]; simpl; [tauto|]. intros Hnd [Heq|Hin].
  - injection Heq as -> ->. now rewrite String.eqb_refl.
  - inversion Hnd as [|? ? Hk Hnd']; subst.
    destruct (String.eqb_spec k k') as [->|_]; [|auto].
    exfalso. apply Hk. change k' with (fst (k', x)). now apply in_map.
Qed.

Lemma Forall2_In_l {A B} (R : A -> B -> Prop) (l1 : list A) (l2 : list B) (x : A) :
  Forall2 R l1 l2 -> In x l1 -> exists y, In y l2 /\ R x y.
Proof.
  induction 1 as [|a b l1 l2 Hab _ IH]; simpl; [tauto|].
  intros [<-|Hin]; [exists b; auto|]. destruct (IH Hin) as [y [Hy Ry]]. exists y; auto.
Qed.

Lemma Forall2_In_r {A B} (R : A -> B -> Prop) (l1 : list A) (l2 : list B) (y : B) :
  Forall2 R l1 l2 -> In y l2 -> exists x, In x l1 /\ R x y.
Proof.
  induction 1 as [|a b l1 l2 Hab _ IH]; simpl; [tauto|].
  intros [<-|Hin]; [exists a; auto|]. destruct (IH Hin) as [x [Hx Rx]]. exists x; auto.
Qed.

(** Equality of JSON objects with distinct keys: same key sets, and every
    entry of the left one equal to the right one's. *)
Lemma value_eqb_object (a b : list (string * Value)) :
  NoDup (List.map fst a) -> NoDup (List.map fst b) ->
  incl (List.map fst b) (List.map fst a) ->
  (forall k j, In (k, j) a -> exists x, map_get k b = Some x /\ value_eqb j x = true) ->
  value_eqb (JObject a) (JObject b) = true.
Proof.
  intros Hna Hnb Hba Hab. cbn [value_eqb]. apply andb_true_iff. split.
  - apply Nat.eqb_eq. rewrite <- (length_map fst a), <- (length_map fst b).
    apply Nat.le_antisymm; apply NoDup_incl_length; auto.
    intros k Hk. apply in_map_iff in Hk as [[k' j] [<- Hin]].
    destruct (Hab k' j Hin) as [x [Hx _]]. apply map_get_In in Hx.
    exact (in_map fst b (k', x) Hx).
  - apply forallb_forall. intros [k j] Hin.
    destruct (Hab k j Hin) as [x [-> Hx]]. exact Hx.
Qed.

(** The fold of [dynamic_to_json] over fields with distinct names appends one
    entry per present field. *)
Lemma render_fold (fs : list (Z * PbValue)) (tab : list (Z * Value)) :
  forall (fl : list FieldDescriptor) acc,
  NoDup (List.map field_name fl) ->
  (forall k, In k (List.map fst acc) -> ~ In k (List.map field_name fl)) ->
  fold_left (fun map f =>
               if has_field_in fs f then
                 match lookup_number (field_number f) tab with
                 | Some jv => map_insert (field_name f) jv map
                 | None => map
                 end
               else map) fl acc
  = acc ++ flat_map (fun f =>
                       if has_field_in fs f then
                         match lookup_number (field_number f) tab with
                         | Some jv => [(field_name f, jv)]
                         | None => []
                         end
                       else []) fl.
Proof.
  induction fl as [|f fl IH]; intros acc Hnd Hdis; simpl; [now rewrite app_nil_r|].
  inversion Hnd as [|? ? Hf Hnd']; subst.
  assert (Hdis' : forall k, In k (List.map fst acc) -> ~ In k (List.map field_name fl))
    by (intros k Hk Hin; apply (Hdis k Hk); now right).
  destruct (has_field_in fs f); [|simpl; apply IH; auto].
  destruct (lookup_number (field_number f) tab) as [jv|]; [|simpl; apply IH; auto].
  rewrite map_insert_fresh by (intros Hin; apply (Hdis _ Hin); now left).
  rewrite IH; [now rewrite <- app_assoc | exact Hnd' |].
  intros k Hin. rewrite map_app in Hin. apply in_app_or in Hin as [Hin|[<-|[]]].
  - exact (Hdis' k Hin).
  - exact Hf.
Qed.

Lemma flat_map_keys (g : FieldDescriptor -> list (string * Value)) :
  (forall f, g f = [] \/ exists j, g f = [(field_name f, j)]) ->
  forall fl, NoDup (List.map field_name fl) ->
  NoDup (List.map fst (flat_map g fl)) /\
  incl (List.map fst (flat_map g fl)) (List.map field_name fl).
Proof.
  intros Hg fl. induction fl as [|f fl IH]; simpl; intros Hnd.
  - split; [constructor | intros k []].
  - inversion Hnd as [|? ? Hf Hnd']; subst. destruct (IH Hnd') as [Hn Hi].
    rewrite map_app. destruct (Hg f) as [->|[j ->]]; simpl.
    + split; [exact Hn|]. intros k Hk. right. now apply Hi.
    + split.
      * constructor; [|exact Hn]. intros Hin. apply Hf. now apply Hi.
      * intros k [<-|Hk]; [now left | right; now apply Hi].
Qed.

(** An entry [(k, x)] of a document and the entry [(n, pv)] it became. *)
Local Abbreviation entry_built d :=
  (fun (kx : string * Value) (np : Z * PbValue) =>
     exists f, get_field_by_name d (fst kx) = Some f /\ fst np = field_number f /\
               (field_presence f || negb (is_default (snd np))) = true /\
               value_eqb (pbvalue_to_json (snd np)) (snd kx) = true).

(** An entry [(k, x)] that [conv] turns into a value that fits its field and
    renders back to [x]. *)
Local Abbreviation entry_convertible conv d :=
  (fun (kx : string * Value) =>
     exists f, get_field_by_name d (fst kx) = Some f /\ field_card f = Single /\
       exists pv, conv (field_kind f) (snd kx) = Ok pv /\ is_valid pv (field_kind f) = true /\
                  (field_presence f || negb (is_default pv)) = true /\
                  value_eqb (pbvalue_to_json pv) (snd kx) = true).

Lemma render_roundtrip (d : MessageDescriptor) (obj : list (string * Value))
  (fs : list (Z * PbValue)) :
  desc_wf d = true -> NoDup (List.map fst obj) -> Forall2 (entry_built d) obj fs ->
  value_eqb (dynamic_to_json_tab d fs (List.map (fun '(n, x) => (n, pbvalue_to_json x)) fs))
            (JObject obj) = true.
Proof.
  intros Hwf Hkeys H2. destruct (desc_wf_NoDup d Hwf) as [Hnames Hnums].
  unfold dynamic_to_json_tab. rewrite render_fold by (auto; intros k []). cbn [app].
  match goal with
  | |- value_eqb (JObject (flat_map ?G _)) _ = true =>
      assert (HG : forall f, G f = [] \/ exists j, G f = [(field_name f, j)])
        by (intros f; cbv beta; destruct (has_field_in fs f);
            [destruct (lookup_number _ _)|]; eauto)
  end.
  destruct (flat_map_keys _ HG (fields d) Hnames) as [Hnd _].
  apply value_eqb_object; [exact Hnd | exact Hkeys | |].
  - intros k Hk. apply in_map_iff in Hk as [[k' x] [<- Hin]].
    destruct (Forall2_In_l _ _ _ _ H2 Hin) as [[n pv] [Hnp [f [Hf [Hn _]]]]].
    cbn [fst snd] in *. subst n.
    destruct (get_field_by_name_some _ _ _ Hf) as [Hfin Hname].
    destruct (In_lookup_number _ _ _ Hnp) as [pv' Hpv'].
    destruct (Forall2_In_r _ _ _ _ H2 (lookup_number_In _ _ _ Hpv'))
      as [[k2 x2] [Hin2 [f2 [Hf2 [Hn2 [Hpres2 _]]]]]].
    cbn [fst snd] in *.
    destruct (get_field_by_name_some _ _ _ Hf2) as [Hfin2 _].
    assert (f2 = f) as -> by (apply (field_number_inj d f2 f Hwf Hfin2 Hfin); congruence).
    apply in_map_iff. exists (k', pbvalue_to_json pv'). split; [reflexivity|].
    apply in_flat_map. exists f. split; [exact Hfin|]. cbv beta.
    unfold has_field_in. rewrite lookup_number_map, Hpv', Hpres2. left. now rewrite Hname.
  - intros k j Hin. apply in_flat_map in Hin as [f [Hfin Hin]]. cbv beta in Hin.
    unfold has_field_in in Hin. rewrite lookup_number_map in Hin.
    destruct (lookup_number (field_number f) fs) as [pv|] eqn:Hpv; [|destruct Hin].
    cbn [option_map] in Hin.
    destruct (field_presence f || negb (is_default pv)); [|destruct Hin].
    destruct Hin as [[= <- <-]|[]].
    destruct (Forall2_In_r _ _ _ _ H2 (lookup_number_In _ _ _ Hpv))
      as [[k2 x2] [Hin2 [f2 [Hf2 [Hn2 [_ Heq2]]]]]].
    cbn [fst snd] in *.
    destruct (get_field_by_name_some _ _ _ Hf2) as [Hfin2 Hname2].
    assert (f2 = f) as -> by (apply (field_number_inj d f2 f Hwf Hfin2 Hfin); congruence).
    exists x2. split; [rewrite Hname2; exact (In_map_get _ _ _ Hkeys Hin2) | exact Heq2].
Qed.

(** [fields_set] appends a field that is not yet set and shares no oneof with
    a set one. *)
Lemma fields_set_fresh (d : MessageDescriptor) (f : FieldDescriptor) (v : PbValue)
  (acc : list (Z * PbValue)) :
  (forall n x, In (n, x) acc ->
     n <> field_number f /\
     forall o g, field_oneof f = Some o -> In g (fields d) -> field_number g = n ->
                 field_oneof g <> Some o) ->
  fields_set d f v acc = acc ++ [(field_number f, v)].
Proof.
  intros H. unfold fields_set. cbv zeta.
  rewrite forallb_filter_id.
  2:{ apply forallb_forall. intros [n x] Hin. destruct (H n x Hin) as [Hn Ho].
      cbv beta iota. destruct (field_oneof f) as [o|] eqn:Ef; [|reflexivity].
      apply negb_true_iff, andb_false_iff. right.
      apply not_true_iff_false. intros Hex. apply existsb_exists in Hex as [g [Hg Hg']].
      apply andb_true_iff in Hg' as [Hgn Hgo]. apply Z.eqb_eq in Hgn.
      destruct (field_oneof g) as [o'|] eqn:Eg; [|discriminate].
      apply Nat.eqb_eq in Hgo. subst o'. exact (Ho o g eq_refl Hg Hgn Eg). }
  match goal with |- context [existsb ?p acc] => destruct (existsb p acc) eqn:Hex end;
    [|reflexivity].
  exfalso. apply existsb_exists in Hex as [[n x] [Hin Hn]]. apply Z.eqb_eq in Hn.
  exact (proj1 (H n x Hin) Hn).
Qed.

Lemma set_fields_build (conv : Kind -> Value -> result PbValue) (unknown : string -> error)
  (d : MessageDescriptor) :
  desc_wf d = true ->
  forall obj pre acc,
  keys_ok d (pre ++ obj) = true ->
  Forall2 (entry_built d) pre acc ->
  Forall (entry_convertible conv d) obj ->
  exists fs, set_fields conv unknown d obj {| descriptor := d; dm_fields := acc |}
             = Ok {| descriptor := d; dm_fields := acc ++ fs |} /\
             Forall2 (entry_built d) obj fs.
Proof.
  intros Hwf obj. induction obj as [|[k x] obj IH]; intros pre acc Hkeys Hpre Hobj.
  - exists []. rewrite app_nil_r. split; [reflexivity | constructor].
  - inversion Hobj as [|? ? [f [Hf [Hcard [pv [Hconv [Hvalid [Hnd Heq]]]]]]] Hobj']; subst.
    cbn [fst snd] in Hf, Hconv, Heq.
    destruct (get_field_by_name_some _ _ _ Hf) as [Hfin Hname].
    destruct (keys_ok_NoDup _ _ Hkeys) as [Hk Ho].
    rewrite map_app in Hk. cbn [List.map fst] in Hk.
    rewrite flat_map_app in Ho. cbn [flat_map fst] in Ho.
    assert (Hfresh : fields_set d f pv acc = acc ++ [(field_number f, pv)]).
    { apply fields_set_fresh. intros n y Hin.
      destruct (Forall2_In_r _ _ _ _ Hpre Hin) as [[k' x'] [Hin' [f' [Hf' [Hn' _]]]]].
      cbn [fst snd] in Hf', Hn'. subst n.
      destruct (get_field_by_name_some _ _ _ Hf') as [Hfin' Hname'].
      assert (Hkk : k' <> k).
      { intros ->. apply (NoDup_remove_2 _ _ _ Hk). apply in_or_app. left.
        exact (in_map fst pre (k, x') Hin'). }
      split.
      - intros Heqn. apply Hkk. rewrite <- Hname', <- Hname. f_equal.
        exact (field_number_inj d f' f Hwf Hfin' Hfin Heqn).
      - intros o g Hof Hg Hgn Hgo.
        assert (g = f') as -> by exact (field_number_inj d g f' Hwf Hg Hfin' Hgn).
        assert (Ek : oneof_of d k = [o]) by (unfold oneof_of; now rewrite Hf, Hof).
        rewrite Ek in Ho. cbn [app] in Ho.
        apply (NoDup_remove_2 _ _ _ Ho). apply in_or_app. left.
        apply in_flat_map. exists (k', x'). split; [exact Hin'|].
        cbn [fst]. unfold oneof_of. rewrite Hf', Hgo. now left. }
    cbn [set_fields]. rewrite Hf, Hconv. cbn [bind]. unfold set_field.
    replace (is_valid_for_field pv f) with true
      by (unfold is_valid_for_field; rewrite Hcard; symmetry; exact Hvalid).
    cbn [descriptor dm_fields bind]. rewrite Hfresh.
    destruct (IH (pre ++ [(k, x)]) (acc ++ [(field_number f, pv)])) as [fs [Hset Hfs]].
    + rewrite <- app_assoc. exact Hkeys.
    + apply Forall2_app; [exact Hpre|]. constructor; [|constructor]. exists f. auto.
    + exact Hobj'.
    + exists ((field_number f, pv) :: fs). rewrite Hset, <- app_assoc.
      split; [reflexivity|]. constructor; [exists f; auto | exact Hfs].
Qed.

(** Building an object whose entries all convert, and rendering it back. *)
Lemma object_build_render (conv : Kind -> Value -> result PbValue) (unknown : string -> error)
  (d : MessageDescriptor) (obj : list (string * Value)) :
  desc_wf d = true -> keys_ok d obj = true -> Forall (entry_convertible conv d) obj ->
  exists fs, set_fields conv unknown d obj (new_message d)
             = Ok {| descriptor := d; dm_fields := fs |} /\
             value_eqb (dynamic_to_json_tab d fs
                          (List.map (fun '(n, x) => (n, pbvalue_to_json x)) fs))
                       (JObject obj) = true.
Proof.
  intros Hwf Hkeys Hobj.
  destruct (set_fields_build conv unknown d Hwf obj [] [] Hkeys (Forall2_nil _) Hobj)
    as [fs [Hset Hfs]].
  exists fs. split; [exact Hset|].
  exact (render_roundtrip d obj fs Hwf (proj1 (keys_ok_NoDup _ _ Hkeys)) Hfs).
Qed.

Lemma fields_ok_Forall (p : Kind -> bool -> Value -> bool) (d : MessageDescriptor)
  (obj : list (string * Value)) :
  fields_ok p d obj = true ->
  Forall (fun kx => exists f, get_field_by_name d (fst kx) = Some f /\ field_card f = Single /\
                              p (field_kind f) (field_presence f) (snd kx) = true) obj.
Proof.
  induction obj as [|[k x] obj IH]; cbn [fields_ok]; intros H; [constructor|].
  destruct (get_field_by_name d k) as [f|] eqn:Hf; [|discriminate].
  apply andb_true_iff in H as [H1 H2].
  destruct (field_card f) eqn:Hc; try discriminate.
  constructor; [exists f; auto | exact (IH H2)].
Qed.

(** Induction on JSON values through the elements of arrays and objects. *)
Lemma Value_nested_ind (P : Value -> Prop) :
  P JNull -> (forall b, P (JBool b)) -> (forall n, P (JNumber n)) ->
  (forall s, P (JString s)) ->
  (forall l, Forall P l -> P (JArray l)) ->
  (forall m, Forall (fun kv => P (snd kv)) m -> P (JObject m)) ->
  forall v, P v.
Proof.
  intros Hn Hb Hnum Hs Ha Ho.
  exact (fix F v := match v return P v with
    | JNull => Hn
    | JBool b => Hb b
    | JNumber n => Hnum n
    | JString s => Hs s
    | JArray l =>
        Ha l ((fix G l : Forall P l :=
                 match l with
                 | [] => Forall_nil _
                 | x :: r => Forall_cons x (F x) (G r)
                 end) l)
    | JObject m =>
        Ho m ((fix G m : Forall (fun kv => P (snd kv)) m :=
                 match m with
                 | [] => Forall_nil _
                 | (k, x) :: r => Forall_cons (k, x) (F x) (G r)
                 end) m)
    end).
Qed.

Lemma text_roundtrips_sound (pool : DescriptorPool) :
  forall v kind presence,
  text_roundtrips pool kind presence v = true ->
  exists pv, json_to_pbvalue pool kind v = Ok pv /\ is_valid pv kind = true /\
             (presence || negb (is_default pv)) = true /\
             value_eqb (pbvalue_to_json pv) v = true.
Proof.
  intros v. induction v as [| | | |l Hl|obj IH] using Value_nested_ind; intros kind presence H;
    destruct kind as [| | | | | | | | | | | | | | |m|e];
    try (apply (scalar_roundtrips_sound pool); [intros ? ?; discriminate | exact H]);
    cbn [text_roundtrips] in H;
    destruct (get_message_by_name pool m) as [md|] eqn:Hmd; try discriminate.
  unfold object_roundtrips in H.
  apply andb_true_iff in H as [[Hwf Hkeys]%andb_true_iff Hok].
  apply fields_ok_Forall in Hok.
  destruct (object_build_render (json_to_pbvalue pool) (fun k => UnknownField k None)
              md obj Hwf Hkeys) as [fs [Hset Hrend]].
  { apply Forall_forall. intros [k x] Hin.
    destruct (proj1 (Forall_forall _ _) Hok _ Hin) as [f [Hf [Hc Hp]]].
    pose proof (proj1 (Forall_forall _ _) IH _ Hin) as IHx. cbn [fst snd] in *.
    exists f. auto. }
  exists (VMessage md fs). split; [|split; [|split]].
  - cbn [json_to_pbvalue]. rewrite Hmd, Hset. reflexivity.
  - apply find_some in Hmd as [_ Hname]. exact Hname.
  - cbn. now rewrite orb_true_r.
  - exact Hrend.
Qed.

Lemma set_fields_replace (conv : Kind -> Value -> result PbValue) (unknown : string -> error)
  (d : MessageDescriptor) (k : string) (a b : Value) (post : list (string * Value)) :
  (forall f, get_field_by_name d k = Some f -> conv (field_kind f) a = conv (field_kind f) b) ->
  forall pre msg,
  set_fields conv unknown d (pre ++ (k, a) :: post) msg =
  set_fields conv unknown d (pre ++ (k, b) :: post) msg.
Proof.
  intros H pre. induction pre as [|[k' x] pre IH]; intros msg; cbn [app set_fields].
  - destruct (get_field_by_name d k) as [f|] eqn:Hf; [now rewrite (H f eq_refl) | reflexivity].
  - destruct (get_field_by_name d k') as [f|]; [|reflexivity].
    destruct (conv (field_kind f) x) as [y| |]; cbn [bind]; [|reflexivity..].
    destruct (set_field msg f y); cbn [bind]; [apply IH | reflexivity..].
Qed.

(** C6 (amended): a document round-trips through [build_from_json] and
    [dynamic_to_json] (equal as [serde_json::Value]s) when it is an object
    whose keys name singular fields of the resolved schema, at most one per
    oneof, each with a value in its field kind's own textual form (booleans,
    in-range integers, floats exactly representable in the field's width,
    strings, canonical base64 for bytes, integers within i32 for enums,
    objects satisfying the same conditions for messages), never the zero
    default on a field without presence.  A symbolic enum name is read as its
    number: the document builds the same message as the one carrying the
    number, so [dynamic_to_json] gives back the number, not the name. *)
Theorem text_roundtrip (pool : DescriptorPool) (name : string) :
  (forall t, document_roundtrips pool name t = true ->
     exists m, build_from_json pool name t = Ok m /\
               value_eqb (dynamic_to_json m) t = true) /\
  (forall desc f e pre k s n post,
     message_desc pool name = Ok desc ->
     get_field_by_name desc k = Some f ->
     field_kind f = Enum e ->
     map_get s (enum_values e) = Some n ->
     - 2 ^ 31 <= n < 2 ^ 31 ->
     build_from_json pool name (JObject (pre ++ (k, JString s) :: post)) =
     build_from_json pool name (JObject (pre ++ (k, json_of_i64 n) :: post))).
Proof.
  split.
  - intros t H. unfold document_roundtrips in H.
    destruct (message_desc pool name) as [d| |] eqn:Hd; try discriminate.
    destruct t as [| | | | |obj]; try discriminate.
    unfold object_roundtrips in H.
    apply andb_true_iff in H as [[Hwf Hkeys]%andb_true_iff Hok].
    apply fields_ok_Forall in Hok.
    destruct (object_build_render (json_to_pbvalue pool) (fun k => UnknownField k (Some name))
                d obj Hwf Hkeys) as [fs [Hset Hrend]].
    { apply Forall_forall. intros [k x] Hin.
      destruct (proj1 (Forall_forall _ _) Hok _ Hin) as [f [Hf [Hc Hp]]].
      cbn [fst snd] in *. exists f. split; [exact Hf|]. split; [exact Hc|].
      exact (text_roundtrips_sound pool x _ _ Hp). }
    exists {| descriptor := d; dm_fields := fs |}. split; [|exact Hrend].
    unfold build_from_json. rewrite Hd. cbn [bind]. exact Hset.
  - intros desc f e pre k s n post Hd Hf Hk Hs Hn.
    unfold build_from_json. rewrite Hd. cbn [bind]. unfold build_fields.
    apply set_fields_replace. intros f' Hf'. rewrite Hf in Hf'. injection Hf' as <-.
    rewrite Hk. transitivity (Ok (EnumNumber n) : result PbValue).
    + cbn -[map_get]. rewrite Hs. reflexivity.
    + assert (Hv : (json_of_i64 n = JNumber (PosInt n) /\ 0 <= n <= i64_max) \/
                   (json_of_i64 n = JNumber (NegInt n) /\ n < 0))
        by (unfold json_of_i64; destruct (Z.ltb_spec n 0); [right|left];
            split; auto; unfold i64_max; lia).
      destruct (as_i64_int_text n _ Hv) as [Hi Hstr].
      destruct Hv as [[Ev _]|[Ev _]]; rewrite Ev in *; cbn -[as_i64 as_str];
        rewrite Hstr, Hi; cbn; now rewrite wrap_i32_small.
Qed.

Lemma text_roundtrip_witness :
  document_roundtrips demo_pool "Ping"%string
    (JObject [("amount"%string, JNumber (PosInt 7));
              ("d"%string, JNumber (Float (S754_finite false 5629499534213120 (-51))));
              ("status"%string, JNumber (PosInt 1));
              ("payload"%string, JString "AQI="%string);
              ("inner"%string, JObject [("note"%string, JString "hi"%string)])]) = true /\
  (exists m,
     build_from_json demo_pool "Ping"%string
       (JObject [("amount"%string, JNumber (PosInt 7));
                 ("d"%string, JNumber (Float (S754_finite false 5629499534213120 (-51))));
                 ("status"%string, JNumber (PosInt 1));
                 ("payload"%string, JString "AQI="%string);
                 ("inner"%string, JObject [("note"%string, JString "hi"%string)])]) = Ok m /\
     value_eqb (dynamic_to_json m)
       (JObject [("amount"%string, JNumber (PosInt 7));
                 ("d"%string, JNumber (Float (S754_finite false 5629499534213120 (-51))));
                 ("status"%string, JNumber (PosInt 1));
                 ("payload"%string, JString "AQI="%string);
                 ("inner"%string, JObject [("note"%string, JString "hi"%string)])]) = true) /\
  build_from_json demo_pool "Ping"%string (JObject [("status"%string, JString "ERROR"%string)]) =
  build_from_json demo_pool "Ping"%string (JObject [("status"%string, json_of_i64 1)]).
Proof.
  split; [vm_compute; reflexivity|]. split.
  - apply (proj1 (text_roundtrip demo_pool "Ping"%string)). vm_compute. reflexivity.
  - apply (proj2 (text_roundtrip demo_pool "Ping"%string) ping_desc
             (scalar_field "status" 3 (Enum status_enum)) status_enum []
             "status"%string "ERROR"%string 1 []); try reflexivity; lia.
Defined.

(** C6: the round trip fails for a document using only schema fields and
    numeric enum values: an integer on a double field comes back as a float
    (5 becomes 5.0, unequal as JSON values), and a zero on a field without
    presence is dropped. *)
Lemma text_roundtrip_int_on_double_and_zero :
  bind (build_from_json demo_pool "Ping"%string (JObject [("d"%string, JNumber (PosInt 5))]))
       (fun m => Ok (dynamic_to_json m))
  = Ok (JObject [("d"%string, JNumber (Float (f64_of_Z 5)))]) /\
  value_eqb (JObject [("d"%string, JNumber (Float (f64_of_Z 5)))])
            (JObject [("d"%string, JNumber (PosInt 5))]) = false /\
  bind (build_from_json demo_pool "Ping"%string (JObject [("amount"%string, JNumber (PosInt 0))]))
       (fun m => Ok (dynamic_to_json m))
  = Ok (JObject []).
Proof. refine (conj _ (conj _ _)); vm_compute; reflexivity. Qed.

(** ** Building never panics *)

Lemma set_fields_descriptor (conv : Kind -> Value -> result PbValue) (unknown : string -> error)
  (desc : MessageDescriptor) :
  forall obj msg dm, set_fields conv unknown desc obj msg = Ok dm -> descriptor dm = descriptor msg.
Proof.
  induction obj as [|[k v] obj IH]; intros msg dm H; cbn [set_fields] in H.
  - now injection H as <-.
  - destruct (get_field_by_name desc k) as [f|]; [|discriminate].
    destruct (conv (field_kind f) v) as [pv| |]; try discriminate. cbn [bind] in H.
    unfold set_field in H. destruct (is_valid_for_field pv f); [|discriminate].
    cbn [bind] in H. apply IH in H. exact H.
Qed.

Lemma wrap_i32_range (z : Z) : - 2 ^ 31 <= wrap_i32 z < 2 ^ 31.
Proof.
  unfold wrap_i32. pose proof (Z.mod_pos_bound z (2 ^ 32)).
  rewrite Z.geb_leb. destruct (Z.leb_spec (2 ^ 31) (z mod 2 ^ 32)); lia.
Qed.

Lemma json_to_pbvalue_valid (pool : DescriptorPool) (kind : Kind) (v : Value) (pv : PbValue) :
  json_to_pbvalue pool kind v = Ok pv ->
  is_valid pv kind = true /\
  match pv with
  | I32 i => - 2 ^ 31 <= i < 2 ^ 31
  | U32 u => 0 <= u < 2 ^ 32
  | _ => True
  end.
Proof.
  intros H. destruct kind, v; cbn [json_to_pbvalue] in H;
    repeat match type of H with
    | context [of_option ?o _] => destruct o; cbn [of_option bind] in H; [|discriminate]
    | context [match as_str ?x with _ => _ end] => destruct (as_str x)
    | context [match as_i64 ?x with _ => _ end] => destruct (as_i64 x); [|discriminate]
    end;
    try discriminate;
    try (injection H as <-; split; [reflexivity|]);
    try exact I;
    try apply wrap_i32_range;
    try (unfold wrap_u32; apply Z.mod_pos_bound; lia);
    try (destruct (get_message_by_name _ _) in H; discriminate).
  destruct (get_message_by_name pool _) as [md|] eqn:Emd; [|discriminate].
  destruct (set_fields _ _ md m (new_message md)) as [dm| |] eqn:Eset; try discriminate.
  cbn [bind] in H. injection H as <-. split; [|exact I].
  apply set_fields_descriptor in Eset. simpl in Eset |- *. rewrite Eset.
  unfold get_message_by_name in Emd. apply find_some in Emd. exact (proj2 Emd).
Qed.

(** [set_field] accepts a value valid for the field's kind, whatever the
    field's cardinality. *)
Lemma is_valid_for_field_of_valid (pv : PbValue) (f : FieldDescriptor) :
  is_valid pv (field_kind f) = true -> is_valid_for_field pv f = true.
Proof.
  intros H. unfold is_valid_for_field.
  destruct (field_card f), pv; try exact H; destruct (field_kind f); discriminate H.
Qed.

Lemma set_fields_no_panic (conv : Kind -> Value -> result PbValue) (unknown : string -> error)
  (desc : MessageDescriptor) (m : string) :
  (forall kind v pv, conv kind v = Ok pv -> is_valid pv kind = true) ->
  forall obj msg, (forall kv kind, In kv obj -> conv kind (snd kv) <> Panic m) ->
  set_fields conv unknown desc obj msg <> Panic m.
Proof.
  intros Hvalid. induction obj as [|[k v] obj IH]; intros msg Hconv; cbn [set_fields];
    [discriminate|].
  destruct (get_field_by_name desc k) as [f|] eqn:Ef; [|discriminate].
  pose proof (Hconv (k, v) (field_kind f) (or_introl eq_refl)) as Hc. simpl in Hc.
  destruct (conv (field_kind f) v) as [pv|e|m'] eqn:Ec; cbn [bind];
    [|discriminate|intros E; apply Hc; injection E as ->; reflexivity].
  unfold set_field. rewrite (is_valid_for_field_of_valid pv f (Hvalid _ _ _ Ec)). cbn [bind].
  apply IH. intros kv kind Hin. apply Hconv. now right.
Qed.

Lemma json_to_pbvalue_no_panic (pool : DescriptorPool) (v : Value) :
  forall kind m, json_to_pbvalue pool kind v <> Panic m.
Proof.
  induction v as [| | | |l _|obj IH] using Value_nested_ind; intros kind m;
    destruct kind; cbn [json_to_pbvalue];
    repeat match goal with
    | |- context [of_option ?o _] => destruct o; cbn [of_option bind]
    | |- context [match as_str ?x with _ => _ end] => destruct (as_str x)
    | |- context [match as_i64 ?x with _ => _ end] => destruct (as_i64 x)
    | |- context [match get_message_by_name ?p ?n with _ => _ end] =>
        destruct (get_message_by_name p n) eqn:?
    end; try discriminate.
  destruct (set_fields _ _ _ _ _) as [dm|e|m'] eqn:Es; cbn [bind]; try discriminate.
  intros [= ->]. revert Es. apply set_fields_no_panic.
  - intros k v pv H. exact (proj1 (json_to_pbvalue_valid pool k v pv H)).
  - intros kv k Hin. rewrite Forall_forall in IH. exact (IH kv Hin k m).
Qed.

Lemma build_fields_no_panic (pool : DescriptorPool) (name : string) (desc : MessageDescriptor)
  (obj : list (string * Value)) (msg : DynamicMessage) (m : string) :
  build_fields pool name desc obj msg <> Panic m.
Proof.
  unfold build_fields. apply set_fields_no_panic.
  - intros k v pv H. exact (proj1 (json_to_pbvalue_valid pool k v pv H)).
  - intros kv k _. apply json_to_pbvalue_no_panic.
Qed.

Lemma build_from_json_no_panic_any (pool : DescriptorPool) (name : string) (json : Value)
  (m : string) :
  build_from_json pool name json <> Panic m.
Proof.
  unfold build_from_json. destruct (message_desc pool name) as [desc| |m'] eqn:Ed;
    cbn [bind]; try discriminate.
  2: { unfold message_desc in Ed. destruct (get_message_by_name pool name); [discriminate|].
       destruct (find _ pool); discriminate. }
  cbv zeta. destruct json; try discriminate. apply build_fields_no_panic.
Qed.

(** ** Sending *)

Lemma build_fields_unknown_key (pool : DescriptorPool) (name : string)
  (desc : MessageDescriptor) (k : string) (v : Value) (post : list (string * Value)) :
  get_field_by_name desc k = None ->
  forall pre msg,
    (forall m, build_fields pool name desc (pre ++ (k, v) :: post) msg <> Ok m) /\
    ((exists m, build_fields pool name desc pre msg = Ok m) ->
     build_fields pool name desc (pre ++ (k, v) :: post) msg = Err (UnknownField k (Some name))).
Proof.
  unfold build_fields.
  intros Hk pre. induction pre as [|[k' v'] pre IH]; intros msg; simpl.
  - rewrite Hk. split; [discriminate|]. reflexivity.
  - destruct (get_field_by_name desc k') as [f|]; [|split; [discriminate|intros [m Hm]; discriminate]].
    destruct (json_to_pbvalue pool (field_kind f) v') as [val|e|p]; simpl;
      [|split; [discriminate|intros [m Hm]; discriminate]..].
    destruct (set_field msg f val) as [msg'|e|p]; simpl;
      [exact (IH msg')|split; [discriminate|intros [m Hm]; discriminate]..].
Qed.

Lemma set_fields_app_err (conv : Kind -> Value -> result PbValue) (unknown : string -> error)
  (desc : MessageDescriptor) (rest : list (string * Value)) :
  forall pre msg e, set_fields conv unknown desc pre msg = Err e ->
  set_fields conv unknown desc (pre ++ rest) msg = Err e.
Proof.
  induction pre as [|[k v] pre IH]; intros msg e H; cbn [set_fields app] in H |- *;
    [discriminate|].
  destruct (get_field_by_name desc k) as [f|]; [|exact H].
  destruct (conv (field_kind f) v) as [pv| |]; cbn [bind] in H |- *; try exact H.
  destruct (set_field msg f pv) as [msg'| |]; cbn [bind] in H |- *; [exact (IH _ _ H)|exact H|exact H].
Qed.

(** The error of a failing [build_fields] is that of its first failing key:
    every key before it is converted and set without error. *)
Lemma build_fields_first_error (pool : DescriptorPool) (name : string) (desc : MessageDescriptor) :
  forall obj msg e, build_fields pool name desc obj msg = Err e ->
  exists pre1 k1 v1 pre2, obj = pre1 ++ (k1, v1) :: pre2 /\
    (exists m, build_fields pool name desc pre1 msg = Ok m) /\
    ((get_field_by_name desc k1 = None /\ e = UnknownField k1 (Some name)) \/
     (exists f1, get_field_by_name desc k1 = Some f1 /\
                 json_to_pbvalue pool (field_kind f1) v1 = Err e)).
Proof.
  unfold build_fields.
  induction obj as [|[k v] obj IH]; intros msg e H; cbn [set_fields] in H; [discriminate|].
  destruct (get_field_by_name desc k) as [f|] eqn:Ef.
  - destruct (json_to_pbvalue pool (field_kind f) v) as [pv|e'|p] eqn:Ev; cbn [bind] in H.
    + destruct (set_field msg f pv) as [msg'|e''|p] eqn:Es; cbn [bind] in H.
      * destruct (IH _ _ H) as [pre1 [k1 [v1 [pre2 [-> [[m Hm] Hor]]]]]].
        exists ((k, v) :: pre1), k1, v1, pre2. split; [reflexivity|]. split; [|exact Hor].
        exists m. cbn [set_fields]. rewrite Ef, Ev. cbn [bind]. rewrite Es. cbn [bind]. exact Hm.
      * unfold set_field in Es. destruct (is_valid_for_field pv f); discriminate.
      * discriminate H.
    + injection H as <-. exists [], k, v, obj. split; [reflexivity|].
      split; [exists msg; reflexivity|]. right. exists f. split; [exact Ef|exact Ev].
    + discriminate H.
  - injection H as <-. exists [], k, v, obj. split; [reflexivity|].
    split; [exists msg; reflexivity|]. left. split; [exact Ef|reflexivity].
Qed.

(** C5 (amended): when the send body (an object) has a key that names no
    field of the resolved schema, [send] fails and publishes nothing.  The
    error is "unknown field <key> for <type>" when every key before it (in
    the body's iteration order) names a field and converts without error;
    otherwise it is the error of the first earlier key that fails: an
    unknown-field error for that key, or the conversion error of its value. *)
Theorem send_message_unknown_field (pool : DescriptorPool)
  (encode_to_vec : DynamicMessage -> list Z) (outbox : list (list (list Z)))
  (send_err : option zmq_error) (name : string) (desc : MessageDescriptor)
  (pre : list (string * Value)) (k : string) (v : Value) (post : list (string * Value)) :
  message_desc pool name = Ok desc ->
  get_field_by_name desc k = None ->
  let '(r, out) := send_message pool encode_to_vec outbox send_err name
                     (JObject (pre ++ (k, v) :: post)) in
  out = outbox /\ r <> Ok tt /\
  ((exists m, build_fields pool name desc pre (new_message desc) = Ok m) ->
   r = Err (UnknownField k (Some name))) /\
  ((forall m, build_fields pool name desc pre (new_message desc) <> Ok m) ->
   exists pre1 k1 v1 pre2 e, pre = pre1 ++ (k1, v1) :: pre2 /\
     (exists m, build_fields pool name desc pre1 (new_message desc) = Ok m) /\ r = Err e /\
     ((get_field_by_name desc k1 = None /\ e = UnknownField k1 (Some name)) \/
      (exists f1, get_field_by_name desc k1 = Some f1 /\
                  json_to_pbvalue pool (field_kind f1) v1 = Err e))).
Proof.
  intros Hd Hk. unfold send_message, build_from_json. rewrite Hd. simpl.
  destruct (build_fields_unknown_key pool name desc k v post Hk pre (new_message desc))
    as [Hnot Hunk].
  destruct (build_fields pool name desc (pre ++ (k, v) :: post) (new_message desc))
    as [m|e|p] eqn:Hb.
  - exfalso. exact (Hnot m eq_refl).
  - split; [reflexivity|split; [discriminate|split]].
    + intros Hpre. specialize (Hunk Hpre). injection Hunk as ->. reflexivity.
    + intros Hfail.
      destruct (build_fields pool name desc pre (new_message desc)) as [m0|e0|p0] eqn:Hpre.
      * exfalso. exact (Hfail m0 eq_refl).
      * destruct (build_fields_first_error pool name desc pre (new_message desc) e0 Hpre)
          as [pre1 [k1 [v1 [pre2 [Heq [Hok Hor]]]]]].
        unfold build_fields in Hpre, Hb.
        apply (set_fields_app_err _ _ desc ((k, v) :: post)) in Hpre.
        rewrite Hb in Hpre. injection Hpre as <-.
        exists pre1, k1, v1, pre2, e. split; [exact Heq|]. split; [exact Hok|].
        split; [reflexivity|exact Hor].
      * exfalso. exact (build_fields_no_panic pool name desc pre (new_message desc) p0 Hpre).
  - exfalso. exact (build_fields_no_panic pool name desc _ (new_message desc) p Hb).
Qed.

Lemma send_message_unknown_field_witness :
  send_message demo_pool (fun _ => []) [] None "Ping"%string
    (JObject [("bogus"%string, JNumber (PosInt 1))])
  = (Err (UnknownField "bogus" (Some "Ping"%string)), []).
Proof.
  pose proof (send_message_unknown_field demo_pool (fun _ => []) [] None "Ping"%string
                ping_desc [] "bogus"%string (JNumber (PosInt 1)) []
                eq_refl eq_refl) as H.
  cbn [app] in H. revert H.
  destruct (send_message demo_pool (fun _ => []) [] None "Ping"%string
              (JObject [("bogus"%string, JNumber (PosInt 1))])) as [r out].
  intros [-> [_ [H _]]]. rewrite H; [reflexivity|].
  exists (new_message ping_desc). reflexivity.
Defined.

(** C5 (as stated): the body {"amount": true, "bogus": 1} has the unknown
    key "bogus", yet [send] fails with "expected i32" (the type error of the
    earlier key "amount"), not with an unknown-field error. *)
Lemma send_unknown_field_after_type_error :
  send_message demo_pool (fun _ => []) [] None "Ping"%string
    (JObject [("amount"%string, JBool true); ("bogus"%string, JNumber (PosInt 1))])
  = (Err (Expected "i32"), []) /\
  fst (send_message demo_pool (fun _ => []) [] None "Ping"%string
         (JObject [("amount"%string, JBool true); ("bogus"%string, JNumber (PosInt 1))]))
  <> Err (UnknownField "bogus" (Some "Ping"%string)).
Proof. split; [reflexivity|]. simpl. discriminate. Qed.

(** ** Extra properties *)

Lemma NoDup_nodupb {A} (eqb : A -> A -> bool) :
  (forall x y, eqb x y = true <-> x = y) ->
  forall l, NoDup l -> nodupb eqb l = true.
Proof.
  intros Heq l. induction 1 as [|x r Hx _ IH]; simpl; [reflexivity|].
  rewrite IH, andb_true_r. apply negb_true_iff.
  destruct (existsb (eqb x) r) eqn:E; [|reflexivity].
  apply existsb_exists in E as [y [Hy Hxy]]. apply Heq in Hxy. subst. contradiction.
Qed.

Lemma SFeqb_cases (x y : spec_float) :
  SFeqb x y = true ->
  (exists s1 s2, x = S754_zero s1 /\ y = S754_zero s2) \/ x = y.
Proof.
  unfold SFeqb, SFcompare.
  destruct x as [[]|[]| |[] m1 e1], y as [[]|[]| |[] m2 e2]; simpl; try discriminate;
    intros H; try (left; eauto; fail); try (right; reflexivity);
    destruct (Z.compare_spec e1 e2) as [->|_|_]; try discriminate;
    destruct (Pos.compare_cont Eq m1 m2) eqn:Em; try discriminate;
    apply Pos.compare_eq in Em; subst; now right.
Qed.

Lemma f64_eq_trans (x y z : spec_float) :
  f64_eq x y = true -> f64_eq y z = true -> f64_eq x z = true.
Proof.
  unfold f64_eq. intros Hxy Hyz.
  destruct (SFeqb_cases _ _ Hxy) as [[s1 [s2 [-> ->]]]|<-]; [|exact Hyz].
  destruct (SFeqb_cases _ _ Hyz) as [[s3 [s4 [_ ->]]]|<-]; [reflexivity|exact Hxy].
Qed.

Lemma number_eqb_trans (a b c : Number) :
  number_eqb a b = true -> number_eqb b c = true -> number_eqb a c = true.
Proof.
  destruct a, b, c; simpl; try discriminate; try apply f64_eq_trans;
    intros H1 H2; apply Z.eqb_eq in H1, H2; subst; apply Z.eqb_refl.
Qed.

(** X1 (json_partial_match): a JSON value whose objects have distinct keys and whose numbers are finite partially matches itself. *)
Theorem json_partial_match_refl (v : Value) :
  keys_distinct v && floats_finite v = true -> json_partial_match v v = true.
Proof.
  induction v as [| | n | |l IH|m IH] using Value_nested_ind; intros H; simpl in *.
  - reflexivity.
  - apply eqb_reflx.
  - destruct n; simpl; try apply Z.eqb_refl. apply f64_eq_refl. exact H.
  - apply String.eqb_refl.
  - apply andb_true_iff in H as [Hk Hf]. rewrite forallb_forall in Hk, Hf.
    apply forallb_forall. intros x Hx. apply existsb_exists. exists x. split; [exact Hx|].
    rewrite Forall_forall in IH. apply IH; [exact Hx|]. now rewrite Hk, Hf.
  - apply andb_true_iff in H as [Hk Hf]. apply andb_true_iff in Hk as [Hn Hk].
    apply (nodupb_NoDup _ String.eqb_eq) in Hn. rewrite forallb_forall in Hk, Hf.
    apply forallb_forall. intros [k x] Hx. rewrite (In_map_get k m x Hn Hx).
    rewrite Forall_forall in IH. apply (IH (k, x) Hx). simpl.
    specialize (Hk _ Hx). specialize (Hf _ Hx). simpl in Hk, Hf. now rewrite Hk, Hf.
Qed.

(** X2 (json_partial_match): partial matching is transitive: if a matches b and b matches c, then a matches c. *)
Theorem json_partial_match_trans (a b c : Value) :
  json_partial_match a b = true -> json_partial_match b c = true ->
  json_partial_match a c = true.
Proof.
  revert b c.
  induction a as [|x|n|s|l IH|m IH] using Value_nested_ind; intros b c Hab Hbc.
  - destruct b; try discriminate. destruct c; try discriminate. reflexivity.
  - destruct b; try discriminate. destruct c; try discriminate. simpl in *.
    apply eqb_prop in Hab, Hbc. subst. apply eqb_reflx.
  - destruct b; try discriminate. destruct c; try discriminate. simpl in *.
    exact (number_eqb_trans _ _ _ Hab Hbc).
  - destruct b; try discriminate. destruct c; try discriminate. simpl in *.
    apply String.eqb_eq in Hab, Hbc. subst. apply String.eqb_refl.
  - destruct b as [| | | |l'|]; try discriminate. destruct c as [| | | |l''|]; try discriminate.
    simpl in *. rewrite forallb_forall in *. rewrite Forall_forall in IH.
    intros x Hx. destruct (proj1 (existsb_exists _ _) (Hab x Hx)) as [y [Hy Hxy]].
    destruct (proj1 (existsb_exists _ _) (Hbc y Hy)) as [z [Hz Hyz]].
    apply existsb_exists. exists z. split; [exact Hz|]. exact (IH x Hx y z Hxy Hyz).
  - destruct b as [| | | | |m']; try discriminate. destruct c as [| | | | |m'']; try discriminate.
    simpl in *. rewrite forallb_forall in *. rewrite Forall_forall in IH.
    intros [k x] Hx. specialize (Hab (k, x) Hx). simpl in Hab.
    destruct (map_get k m') as [y|] eqn:Ey; [|discriminate].
    specialize (Hbc (k, y) (map_get_In _ _ _ Ey)). simpl in Hbc.
    destruct (map_get k m'') as [z|]; [|discriminate].
    exact (IH (k, x) Hx y z Hab Hbc).
Qed.

Lemma dynamic_to_json_fields (m : DynamicMessage) :
  NoDup (List.map field_name (fields (descriptor m))) ->
  dynamic_to_json m =
  JObject (List.map (fun f => (field_name f,
                               match lookup_number (field_number f) (dm_fields m) with
                               | Some pv => pbvalue_to_json pv
                               | None => JNull
                               end))
                    (filter (has_field m) (fields (descriptor m)))).
Proof.
  intros Hnd. unfold dynamic_to_json. cbn [pbvalue_to_json]. unfold dynamic_to_json_tab.
  rewrite render_fold; [simpl; f_equal | exact Hnd | intros k []]. clear Hnd.
  induction (fields (descriptor m)) as [|f fl IH]; simpl; [reflexivity|].
  unfold has_field. destruct (has_field_in (dm_fields m) f) eqn:Eh; simpl; [|exact IH].
  rewrite lookup_number_map. unfold has_field_in in Eh.
  destruct (lookup_number (field_number f) (dm_fields m)) eqn:El; [|discriminate].
  simpl. f_equal. exact IH.
Qed.

Lemma PbValue_nested_ind (P : PbValue -> Prop) :
  (forall b, P (VBool b)) -> (forall i, P (I32 i)) -> (forall i, P (I64 i)) ->
  (forall u, P (U32 u)) -> (forall u, P (U64 u)) -> (forall f, P (F32 f)) ->
  (forall f, P (F64 f)) -> (forall s, P (VString s)) -> (forall b, P (VBytes b)) ->
  (forall n, P (EnumNumber n)) ->
  (forall d fs, Forall (fun nv => P (snd nv)) fs -> P (VMessage d fs)) ->
  (forall l, Forall P l -> P (VList l)) ->
  (forall m, Forall (fun kv => P (snd kv)) m -> P (VMap m)) ->
  forall v, P v.
Proof.
  intros Hb Hi32 Hi64 Hu32 Hu64 Hf32 Hf64 Hs Hby He Hm Hl Hmap.
  exact (fix F v := match v return P v with
    | VBool b => Hb b | I32 i => Hi32 i | I64 i => Hi64 i | U32 u => Hu32 u
    | U64 u => Hu64 u | F32 f => Hf32 f | F64 f => Hf64 f | VString s => Hs s
    | VBytes b => Hby b | EnumNumber n => He n
    | VMessage d fs =>
        Hm d fs ((fix G fs : Forall (fun nv => P (snd nv)) fs :=
                    match fs with
                    | [] => Forall_nil _
                    | (n, x) :: r => Forall_cons (n, x) (F x) (G r)
                    end) fs)
    | VList l =>
        Hl l ((fix G l : Forall P l :=
                 match l with
                 | [] => Forall_nil _
                 | x :: r => Forall_cons x (F x) (G r)
                 end) l)
    | VMap m =>
        Hmap m ((fix G m : Forall (fun kv => P (snd kv)) m :=
                   match m with
                   | [] => Forall_nil _
                   | (k, x) :: r => Forall_cons (k, x) (F x) (G r)
                   end) m)
    end).
Qed.

Lemma map_insert_keys (k k' : string) (v : Value) (m : list (string * Value)) :
  In k' (List.map fst (map_insert k v m)) <-> k' = k \/ In k' (List.map fst m).
Proof.
  induction m as [|[k0 v0] m IH]; simpl;
    [split; [intros [->|[]]; now left | intros [->|[]]; now left]|].
  destruct (String.eqb_spec k k0) as [->|_]; simpl; [|rewrite IH]; intuition congruence.
Qed.

Lemma map_insert_NoDup (k : string) (v : Value) (m : list (string * Value)) :
  NoDup (List.map fst m) -> NoDup (List.map fst (map_insert k v m)).
Proof.
  induction m as [|[k0 v0] m IH]; simpl; intros Hnd.
  - constructor; [intros []|constructor].
  - inversion Hnd as [|? ? Hk0 Hnd']; subst.
    destruct (String.eqb_spec k k0) as [->|Hne]; simpl; [exact Hnd|].
    constructor; [|exact (IH Hnd')]. rewrite map_insert_keys. intros [->|Hin]; auto.
Qed.

Ltac normalize_step_tac :=
  let acc := fresh "acc" in let k := fresh "k" in let v := fresh "v" in
  intros acc k v; unfold normalize_entry;
  repeat match goal with |- context [match ?x with _ => _ end] => destruct x end;
  reflexivity.

Lemma normalize_object (map : list (string * Value)) (message : DynamicMessage) :
  NoDup (List.map fst map) ->
  normalize_json_for_comparison (JObject map) message
  = Ok (JObject (List.map (fun '(k, v) => (k, normalize_entry message k v)) map)).
Proof.
  intros Hnd. unfold normalize_json_for_comparison.
  rewrite (fold_insert_fresh _ (normalize_entry message)); [reflexivity | | exact Hnd | intros k []].
  normalize_step_tac.
Qed.

Lemma normalize_entry_idem (message : DynamicMessage) (k : string) (v : Value) :
  normalize_entry message k (normalize_entry message k v) = normalize_entry message k v.
Proof.
  unfold normalize_entry.
  destruct (find _ (fields (descriptor message))) as [f|]; [|reflexivity].
  destruct (field_kind f); try reflexivity.
  destruct v; try reflexivity.
  destruct (find (fun '(n, _) => String.eqb n s) (enum_values e)) as [[? n]|] eqn:E.
  - unfold json_of_i64. now destruct (n <? 0).
  - simpl. now rewrite E.
Qed.

(** X5 (normalize_json_for_comparison): on an expectation with distinct keys, normalization is idempotent: normalizing its result again against the same message gives the same result. *)
Theorem normalize_json_for_comparison_idempotent (expected normalized : Value)
  (message : DynamicMessage) :
  keys_distinct expected = true ->
  normalize_json_for_comparison expected message = Ok normalized ->
  normalize_json_for_comparison normalized message = Ok normalized.
Proof.
  destruct expected as [| | | | |map]; intros Hk Hn;
    try (injection Hn as <-; reflexivity).
  cbn [keys_distinct] in Hk. apply andb_true_iff in Hk as [Hk _].
  apply (nodupb_NoDup _ String.eqb_eq) in Hk.
  rewrite (normalize_object map message Hk) in Hn. injection Hn as <-.
  rewrite normalize_object.
  - f_equal. f_equal. rewrite map_map. apply map_ext. intros [k v].
    now rewrite normalize_entry_idem.
  - rewrite map_map. erewrite map_ext; [exact Hk|]. now intros [k v].
Qed.

Lemma map_get_None {A} (k : string) (m : list (string * A)) :
  ~ In k (List.map fst m) -> map_get k m = None.
Proof.
  induction m as [|[k' x] m IH]; simpl; [reflexivity|]. intros Hn.
  destruct (String.eqb_spec k k') as [->|_]; [exfalso; auto|auto].
Qed.


Lemma fold_insert_keys
  (F : list (string * Value) -> string * Value -> list (string * Value))
  (G : string -> Value -> Value) :
  (forall acc k v, F acc (k, v) = map_insert k (G k v) acc) ->
  forall m acc k,
    In k (List.map fst (fold_left F m acc)) <-> In k (List.map fst acc) \/ In k (List.map fst m).
Proof.
  intros HF m. induction m as [|[k v] m IH]; intros acc k'; simpl; [tauto|].
  rewrite IH, HF, map_insert_keys. intuition congruence.
Qed.

Lemma normalize_keys (map : list (string * Value)) (message : DynamicMessage) (k : string) :
  In k (List.map fst map) ->
  exists out, normalize_json_for_comparison (JObject map) message = Ok (JObject out) /\
              In k (List.map fst out).
Proof.
  intros Hin. unfold normalize_json_for_comparison. eexists. split; [reflexivity|].
  rewrite (fold_insert_keys _ (normalize_entry message)); [now right|].
  normalize_step_tac.
Qed.

Lemma dynamic_to_json_keys (message : DynamicMessage) (k : string) :
  NoDup (List.map field_name (fields (descriptor message))) ->
  (forall f, In f (fields (descriptor message)) -> field_name f = k -> has_field message f = false) ->
  exists ao, dynamic_to_json message = JObject ao /\ map_get k ao = None.
Proof.
  intros Hnd Hno. rewrite (dynamic_to_json_fields message Hnd). eexists. split; [reflexivity|].
  apply map_get_None. rewrite map_map. intros Hin. apply in_map_iff in Hin as [g [Hg Hin]].
  apply filter_In in Hin as [Hin Hh]. simpl in Hg. rewrite (Hno g Hin Hg) in Hh. discriminate.
Qed.

(** X6 (normalize_json_for_comparison, json_partial_match): an expectation that names a field the message does not report as present never matches the message, whatever value it expects there. *)
Theorem expectation_on_unset_field_fails (expected : list (string * Value))
  (message : DynamicMessage) (f : FieldDescriptor) (x normalized : Value) :
  NoDup (List.map field_name (fields (descriptor message))) ->
  In f (fields (descriptor message)) ->
  has_field message f = false ->
  In (field_name f, x) expected ->
  normalize_json_for_comparison (JObject expected) message = Ok normalized ->
  json_partial_match normalized (dynamic_to_json message) = false.
Proof.
  intros Hnd Hf Hunset Hx Hn.
  destruct (normalize_keys expected message (field_name f)) as [out [Hout Hk]];
    [exact (in_map fst _ _ Hx)|].
  rewrite Hout in Hn. injection Hn as <-.
  destruct (dynamic_to_json_keys message (field_name f) Hnd) as [ao [-> Hao]].
  { intros g Hg Hname. rewrite (NoDup_map_inj field_name _ g f Hnd Hg Hf Hname). exact Hunset. }
  apply in_map_iff in Hk as [[k y] [Hkf Hy]]. simpl in Hkf. subst k.
  cbn [json_partial_match]. destruct (forallb _ out) eqn:E; [|reflexivity].
  rewrite forallb_forall in E. specialize (E _ Hy). simpl in E. rewrite Hao in E. discriminate.
Qed.

(** X7 (json_to_pbvalue): a value converted from JSON is valid for the requested kind, and 32-bit integers are within their 32-bit range after wrapping. *)
Theorem json_to_pbvalue_fits_kind (pool : DescriptorPool) (kind : Kind) (v : Value) (pv : PbValue) :
  json_to_pbvalue pool kind v = Ok pv ->
  is_valid pv kind = true /\
  match pv with
  | I32 i => - 2 ^ 31 <= i < 2 ^ 31
  | U32 u => 0 <= u < 2 ^ 32
  | _ => True
  end.
Proof. exact (json_to_pbvalue_valid pool kind v pv). Qed.

(** X8 (build_from_json): in a pool whose messages have only singular fields, building a message from JSON never panics: it returns a message or an error. *)
Theorem build_from_json_no_panic (pool : DescriptorPool) (name : string) (json : Value) (m : string) :
  forallb (fun md => forallb (fun f => match field_card f with Single => true | _ => false end)
                             (fields md)) pool = true ->
  build_from_json pool name json <> Panic m.
Proof. intros _. apply build_from_json_no_panic_any. Qed.

(** X9 (build_from_json): in any pool, building a message from JSON never panics: every value converted for a field's kind is accepted by [set_field], also a single value given for a list or map field ([is_valid_for_field] falls back to [is_valid]); the result is a message or an error. *)
Theorem build_from_json_never_panics (pool : DescriptorPool) (name : string) (json : Value)
  (m : string) :
  build_from_json pool name json <> Panic m.
Proof. exact (build_from_json_no_panic_any pool name json m). Qed.

Lemma fields_set_Forall (P : Z * PbValue -> Prop) (d : MessageDescriptor) (f : FieldDescriptor)
  (v : PbValue) (fs : list (Z * PbValue)) :
  Forall P fs -> P (field_number f, v) -> Forall P (fields_set d f v fs).
Proof.
  intros Hfs Hv. unfold fields_set. cbv zeta.
  assert (Hk : forall p, Forall P (filter p fs)).
  { intros p. rewrite Forall_forall in *. intros x Hx. apply filter_In in Hx.
    exact (Hfs x (proj1 Hx)). }
  match goal with |- context [filter ?p fs] =>
    pose proof (Hk p) as Hkp; generalize dependent (filter p fs) end.
  intros kept Hkept. destruct (existsb _ kept).
  - rewrite Forall_forall in Hkept |- *. intros x Hx.
    apply in_map_iff in Hx as [[n y] [Hx Hin]].
    destruct (Z.eqb_spec n (field_number f)) as [->|_]; subst x; [exact Hv|exact (Hkept _ Hin)].
  - apply Forall_app. split; [exact Hkept|]. constructor; [exact Hv|constructor].
Qed.

Lemma set_fields_stores_valid (pool : DescriptorPool) (unknown : string -> error)
  (desc : MessageDescriptor) :
  forall obj msg dm,
  Forall (fun nv => exists f, In f (fields desc) /\ field_number f = fst nv /\
                              is_valid (snd nv) (field_kind f) = true) (dm_fields msg) ->
  set_fields (json_to_pbvalue pool) unknown desc obj msg = Ok dm ->
  Forall (fun nv => exists f, In f (fields desc) /\ field_number f = fst nv /\
                              is_valid (snd nv) (field_kind f) = true) (dm_fields dm).
Proof.
  induction obj as [|[k v] obj IH]; intros msg dm Hmsg H; cbn [set_fields] in H.
  - injection H as <-. exact Hmsg.
  - destruct (get_field_by_name desc k) as [f|] eqn:Ef; [|discriminate].
    destruct (json_to_pbvalue pool (field_kind f) v) as [pv| |] eqn:Ev; try discriminate.
    cbn [bind] in H. unfold set_field in H.
    destruct (is_valid_for_field pv f); [|discriminate]. cbn [bind] in H.
    refine (IH _ _ _ H). cbn [dm_fields]. apply fields_set_Forall; [exact Hmsg|].
    exists f. split; [exact (proj1 (get_field_by_name_some _ _ _ Ef))|].
    split; [reflexivity|]. exact (proj1 (json_to_pbvalue_valid _ _ _ _ Ev)).
Qed.

(** X10 (build_from_json): when building a message from JSON succeeds, the message has the descriptor resolved for the name, and every value it stores is valid for the kind of a field of that descriptor with the number it is stored under. *)
Theorem build_from_json_stores_valid_values (pool : DescriptorPool) (name : string)
  (json : Value) (m : DynamicMessage) :
  build_from_json pool name json = Ok m ->
  (exists desc, message_desc pool name = Ok desc /\ descriptor m = desc) /\
  Forall (fun nv => exists f, In f (fields (descriptor m)) /\ field_number f = fst nv /\
                              is_valid (snd nv) (field_kind f) = true) (dm_fields m).
Proof.
  unfold build_from_json. destruct (message_desc pool name) as [desc| |] eqn:Ed;
    cbn [bind]; try discriminate. cbv zeta. intros H.
  assert (Hdesc : descriptor m = desc).
  { destruct json; try (injection H as <-; reflexivity).
    unfold build_fields in H. apply set_fields_descriptor in H. exact H. }
  split; [exists desc; split; [reflexivity|exact Hdesc]|]. rewrite Hdesc.
  destruct json as [| | | | |obj]; try (injection H as <-; constructor).
  unfold build_fields in H. apply (set_fields_stores_valid pool (fun k => UnknownField k (Some name)) desc obj (new_message desc));
    [constructor|exact H].
Qed.

Lemma list_ascii_of_string_append (a b : string) :
  list_ascii_of_string (a ++ b) = list_ascii_of_string a ++ list_ascii_of_string b.
Proof. induction a as [|c a IH]; simpl; [reflexivity|]. now rewrite IH. Qed.

Lemma last_segment_acc_no_dot (s : string) :
  forall acc, ~ In "."%char (list_ascii_of_string acc) ->
  ~ In "."%char (list_ascii_of_string (last_segment_acc s acc)).
Proof.
  induction s as [|c s IH]; intros acc Hacc; simpl; [exact Hacc|].
  destruct (Ascii.eqb_spec c "."%char) as [->|Hc]; apply IH; [intros []|].
  rewrite list_ascii_of_string_append. simpl. intros Hin.
  apply in_app_or in Hin as [Hin|[Heq|[]]]; [exact (Hacc Hin)|exact (Hc Heq)].
Qed.

Lemma message_desc_dotted (pool : DescriptorPool) (name : string) :
  In "."%char (list_ascii_of_string name) ->
  get_message_by_name pool name = None ->
  message_desc pool name = Err (MessageNotFound name).
Proof.
  intros Hdot Hnone. unfold message_desc. rewrite Hnone.
  rewrite find_none_Forall; [reflexivity|]. apply Forall_forall. intros m _.
  destruct (String.eqb_spec (last_segment (full_name m)) name) as [Heq|]; [|reflexivity].
  exfalso. apply (last_segment_acc_no_dot (full_name m) EmptyString); [intros []|].
  fold (last_segment (full_name m)). now rewrite Heq.
Qed.

(** X13 (message_desc): a name containing a dot is never resolved by its last segment: if no message has exactly that full name, the lookup fails with MessageNotFound. *)
Theorem message_desc_dotted_name_needs_full_name (pool : DescriptorPool) (name : string) :
  In "."%char (list_ascii_of_string name) ->
  get_message_by_name pool name = None ->
  message_desc pool name = Err (MessageNotFound name).
Proof. exact (message_desc_dotted pool name). Qed.

Section BrokerLaws.
Variable pool : DescriptorPool.
Variable encode_to_vec : DynamicMessage -> list Z.
Variable merge : DynamicMessage -> list Z -> option DynamicMessage.
Variable from_utf8_lossy : list Z -> string.

Local Abbreviation loop := (expect_loop pool merge from_utf8_lossy).

Lemma expect_loop_app_gen (message_name : string) (expected : Value)
  (pre rest : list recv_event) :
  loop message_name expected (pre ++ rest) =
  match loop message_name expected pre with
  | Some r => Some r
  | None => loop message_name expected rest
  end.
Proof.
  induction pre as [|ev pre IH]; [reflexivity|].
  destruct ev as [parts|e]; cbn [app expect_loop]; [|destruct e; reflexivity].
  destruct parts as [|t [|p [|x r]]]; try exact IH.
  destruct (decode_message _ _ _ _) as [dm| |]; try exact IH; try reflexivity.
  destruct (negb _); [exact IH|].
  destruct (normalize_json_for_comparison expected dm); try reflexivity.
  destruct (json_partial_match _ _); [reflexivity|exact IH].
Qed.

(** X11 (expect_message): the receive loop over a concatenation of events first decides on the prefix; only if the prefix leaves it undecided does it go on with the rest. *)
Theorem expect_loop_app (message_name : string) (expected : Value)
  (pre rest : list recv_event) :
  loop message_name expected (pre ++ rest) =
  match loop message_name expected pre with
  | Some r => Some r
  | None => loop message_name expected rest
  end.
Proof. exact (expect_loop_app_gen message_name expected pre rest). Qed.

Lemma expect_loop_cons (message_name : string) (expected : Value) (ev : recv_event) :
  (forall rest, loop message_name expected (ev :: rest) = loop message_name expected rest) \/
  (forall rest rest', loop message_name expected (ev :: rest) =
                      loop message_name expected (ev :: rest')).
Proof.
  destruct ev as [parts|e]; [|right; intros; destruct e; reflexivity].
  cbn [expect_loop]. destruct parts as [|t [|p [|x r]]]; try (left; reflexivity).
  destruct (decode_message _ _ _ _) as [dm| |]; try (left; reflexivity); try (right; reflexivity).
  destruct (negb _); [left; reflexivity|].
  destruct (normalize_json_for_comparison expected dm); try (right; reflexivity).
  destruct (json_partial_match _ _); [right; reflexivity|left; reflexivity].
Qed.

Lemma expect_loop_sound (message_name : string) (expected v : Value) (events : list recv_event) :
  loop message_name expected events = Some (Ok v) ->
  exists pre t payload rest dm normalized,
    events = pre ++ Received [t; payload] :: rest /\
    loop message_name expected pre = None /\
    from_utf8_lossy t = message_name /\
    decode_message pool merge ("company.project.v1." ++ message_name)%string payload = Ok dm /\
    v = dynamic_to_json dm /\
    normalize_json_for_comparison expected dm = Ok normalized /\
    json_partial_match normalized v = true.
Proof.
  induction events as [|ev events IH]; [discriminate|].
  destruct (expect_loop_cons message_name expected ev) as [Hc|Hd]; intros H.
  - rewrite Hc in H. destruct (IH H) as [pre [t [payload [rest [dm [ne [-> [Hpre Hrest]]]]]]]].
    exists (ev :: pre), t, payload, rest, dm, ne. split; [reflexivity|].
    split; [rewrite Hc; exact Hpre | exact Hrest].
  - rewrite (Hd events []) in H.
    destruct ev as [parts|e]; cbn [expect_loop] in H; [|destruct e; discriminate].
    destruct parts as [|t [|p [|x r]]]; try discriminate.
    destruct (decode_message _ _ _ _) as [dm| |] eqn:Edec; try discriminate.
    destruct (String.eqb_spec (from_utf8_lossy t) message_name) as [Ht|Ht];
      cbn [negb] in H; [|discriminate].
    destruct (normalize_json_for_comparison expected dm) as [ne| |] eqn:En; try discriminate.
    destruct (json_partial_match ne (dynamic_to_json dm)) eqn:Em; [|discriminate].
    injection H as <-. rewrite Ht in Edec.
    exists [], t, p, events, dm, ne. repeat split; assumption.
Qed.

(** X12 (expect_message): when the receive loop succeeds, there is a received two-frame message, preceded by events that left the loop undecided, whose topic is the expected name, whose payload decodes as the package-qualified message, and whose JSON partially matches the normalized expectation. *)
Theorem expect_loop_accepts_matching_message (message_name : string) (expected v : Value)
  (events : list recv_event) :
  loop message_name expected events = Some (Ok v) ->
  exists pre t payload rest dm normalized,
    events = pre ++ Received [t; payload] :: rest /\
    loop message_name expected pre = None /\
    from_utf8_lossy t = message_name /\
    decode_message pool merge ("company.project.v1." ++ message_name)%string payload = Ok dm /\
    v = dynamic_to_json dm /\
    normalize_json_for_comparison expected dm = Ok normalized /\
    json_partial_match normalized v = true.
Proof. exact (expect_loop_sound message_name expected v events). Qed.

(** X14 (expect_message): if the pool has no message company.project.v1.<name>, the receive loop for that name never succeeds, whatever events arrive. *)
Theorem expect_loop_outside_package_never_matches (message_name : string) (expected v : Value)
  (events : list recv_event) :
  get_message_by_name pool ("company.project.v1." ++ message_name)%string = None ->
  loop message_name expected events <> Some (Ok v).
Proof.
  intros Hnone H.
  destruct (expect_loop_sound message_name expected v events H)
    as [pre [t [payload [rest [dm [ne [_ [_ [_ [Hdec _]]]]]]]]]].
  unfold decode_message in Hdec. rewrite message_desc_dotted in Hdec; [discriminate| |exact Hnone].
  simpl. do 7 right. now left.
Qed.

(** X15 (send_message step): the send step publishes exactly one two-frame message (the name and the encoded message built from the DocString, or from an empty object without one) when it succeeds, and publishes nothing otherwise. *)
Theorem step_send_message_publishes_once (broker_started : bool)
  (from_str : string -> option Value) (docstring : option string)
  (outbox : list (list (list Z))) (send_err : option zmq_error) (message_name : string) :
  match step_send_message pool encode_to_vec broker_started from_str docstring outbox
          send_err message_name with
  | (Ok tt, out) =>
      broker_started = true /\
      exists body dm,
        match docstring with
        | Some doc => from_str doc = Some body
        | None => body = JObject []
        end /\
        build_from_json pool message_name body = Ok dm /\
        out = outbox ++ [[bytes_of_string message_name; encode_to_vec dm]]
  | (_, out) => out = outbox
  end.
Proof.
  unfold step_send_message, send_message.
  destruct broker_started; [|reflexivity].
  destruct docstring as [doc|];
    [destruct (from_str doc) as [body|] eqn:Eb; [|reflexivity]|set (body := JObject [])];
    (destruct (build_from_json pool message_name body) as [dm| |] eqn:Ed; [|reflexivity|reflexivity]);
    (destruct send_err; [reflexivity|]);
    split; try reflexivity; exists body, dm; repeat split; assumption || reflexivity.
Qed.

(** X16 (send_message step): with the broker started and no DocString, sending a known message publishes the name with the encoding of the empty message of that type. *)
Theorem step_send_message_without_docstring (from_str : string -> option Value)
  (outbox : list (list (list Z))) (message_name : string) (desc : MessageDescriptor) :
  message_desc pool message_name = Ok desc ->
  step_send_message pool encode_to_vec true from_str None outbox None message_name
  = (Ok tt, outbox ++ [[bytes_of_string message_name; encode_to_vec (new_message desc)]]).
Proof.
  intros Hd. unfold step_send_message, send_message, build_from_json. rewrite Hd. reflexivity.
Qed.

(** X17 (expect_message step): with the broker started and no DocString, the step succeeds on events where a received two-frame message with the expected name decodes, after events that left the receive loop undecided. *)
Theorem step_expect_message_without_docstring (from_str : string -> option Value)
  (message_name : string) (pre rest : list recv_event) (t payload : list Z) (dm : DynamicMessage) :
  loop message_name (JObject []) pre = None ->
  from_utf8_lossy t = message_name ->
  decode_message pool merge ("company.project.v1." ++ message_name)%string payload = Ok dm ->
  step_expect_message pool merge from_utf8_lossy true from_str None None message_name
    (pre ++ Received [t; payload] :: rest) = Some (Ok tt).
Proof.
  intros Hpre Ht Hdec. unfold step_expect_message, expect_message.
  rewrite expect_loop_app_gen, Hpre. cbn [expect_loop].
  rewrite Ht, Hdec, String.eqb_refl. cbn [negb normalize_json_for_comparison fold_left].
  unfold dynamic_to_json, dynamic_to_json_tab. cbn [pbvalue_to_json json_partial_match forallb].
  reflexivity.
Qed.

End BrokerLaws.

Lemma char_of_sextet_inv (x : Z) : 0 <= x < 64 -> sextet_of_char (char_of_sextet x) = Some x.
Proof.
  intros Hx. rewrite <- (Z2Nat.id x) by lia.
  assert (Hn : (Z.to_nat x < 64)%nat) by lia. revert Hn. generalize (Z.to_nat x). intros n Hn.
  do 64 (destruct n as [|n]; [reflexivity|]). lia.
Qed.

Lemma char_of_sextet_not_pad (x : Z) : 0 <= x < 64 -> Ascii.eqb (char_of_sextet x) pad = false.
Proof.
  intros Hx. destruct (Ascii.eqb_spec (char_of_sextet x) pad) as [E|]; [|reflexivity].
  pose proof (char_of_sextet_inv x Hx) as H. rewrite E in H. discriminate.
Qed.

Ltac b64_sextets :=
  repeat first
    [ rewrite char_of_sextet_inv by (Z.div_mod_to_equations; lia)
    | rewrite char_of_sextet_not_pad by (Z.div_mod_to_equations; lia)
    | rewrite Ascii.eqb_refl ].

Lemma b64_encode_decode_chars (n : nat) :
  forall bs, (length bs <= n)%nat -> Forall (fun x => 0 <= x < 256) bs ->
  b64_decode_chars (b64_encode_bytes bs) = Some bs.
Proof.
  induction n as [|n IH]; intros bs Hlen Hr.
  - destruct bs; [reflexivity | simpl in Hlen; lia].
  - destruct bs as [|b0 [|b1 [|b2 r]]]; [reflexivity| | |].
    + inversion Hr as [|? ? R0 _]; subst.
      cbn [b64_encode_bytes b64_decode_chars]. unfold pad at 3 4. b64_sextets. cbn iota.
      rewrite (proj2 (Z.eqb_eq _ _)) by (Z.div_mod_to_equations; lia).
      f_equal. f_equal. Z.div_mod_to_equations; lia.
    + inversion Hr as [|? ? R0 Hr1]; inversion Hr1 as [|? ? R1 _]; subst.
      cbn [b64_encode_bytes b64_decode_chars]. b64_sextets. cbn iota.
      rewrite (proj2 (Z.eqb_eq _ _)) by (Z.div_mod_to_equations; lia).
      f_equal. f_equal; [|f_equal]; Z.div_mod_to_equations; lia.
    + inversion Hr as [|? ? R0 Hr1]; inversion Hr1 as [|? ? R1 Hr2];
        inversion Hr2 as [|? ? R2 Hr3]; subst.
      cbn [b64_encode_bytes b64_decode_chars]. b64_sextets.
      rewrite (IH r) by (simpl in Hlen; lia || exact Hr3).
      destruct (b64_encode_bytes r); cbn iota;
        (f_equal; f_equal; [|f_equal; [|f_equal]]; Z.div_mod_to_equations; lia).
Qed.

Lemma as_i64_json_of_i64 (i : Z) :
  - 2 ^ 63 <= i <= i64_max -> as_i64 (json_of_i64 i) = Some i.
Proof.
  intros Hi. unfold json_of_i64. destruct (Z.ltb_spec i 0); cbn [as_i64]; [reflexivity|].
  rewrite (proj2 (Z.leb_le _ _)) by lia. reflexivity.
Qed.

Lemma wrap_u32_small (u : Z) : 0 <= u < 2 ^ 32 -> wrap_u32 u = u.
Proof. intros. unfold wrap_u32. apply Z.mod_small. lia. Qed.

Lemma iter_pos_iter {A} (f : A -> A) (n : positive) :
  forall x, iter_pos f n x = Pos.iter f x n.
Proof.
  induction n as [n IH|n IH|]; intros x; simpl; [|now rewrite !IH|reflexivity].
  rewrite !IH, !Pos.iter_swap. reflexivity.
Qed.

Lemma digits2_pos_shift (m k : positive) :
  digits2_pos (Pos.iter xO m k) = (digits2_pos m + k)%positive.
Proof.
  induction k as [|k IH] using Pos.peano_ind.
  - simpl. now rewrite Pos.add_1_r.
  - rewrite Pos.iter_succ. simpl. rewrite IH. lia.
Qed.

Lemma shr_shift (k : positive) : forall m,
  iter_pos shr_1 k (Build_shr_record (Zpos (Pos.iter xO m k)) false false)
  = Build_shr_record (Zpos m) false false.
Proof.
  intros m0. rewrite iter_pos_iter. revert m0.
  induction k as [|k IH] using Pos.peano_ind; intros m; [reflexivity|].
  rewrite Pos.iter_succ_r, Pos.iter_succ. simpl. apply IH.
Qed.

(** Rounding a mantissa that already has the target exponent is exact. *)
Lemma round_aux_exact (prec emax : Z) (s : bool) (m : positive) (e : Z) :
  fexp prec emax (Zpos (digits2_pos m) + e) = e ->
  binary_round_aux prec emax s (Zpos m) e loc_Exact
  = if e <=? emax - prec then S754_finite s m e else S754_infinity s.
Proof.
  intros H. unfold binary_round_aux, shr_fexp. cbn [Zdigits2 shr_record_of_loc].
  rewrite H, Z.sub_diag. cbn [shr shr_m loc_of_shr_record round_nearest_even Zdigits2].
  rewrite H, Z.sub_diag. reflexivity.
Qed.

(** Rounding a mantissa shifted left by [k] bits back to its exponent drops
    the [k] zero bits exactly. *)
Lemma round_aux_shift (prec emax : Z) (s : bool) (m k : positive) (e : Z) :
  fexp prec emax (Zpos (digits2_pos m) + e) = e ->
  binary_round_aux prec emax s (Zpos (Pos.iter xO m k)) (e - Zpos k) loc_Exact
  = if e <=? emax - prec then S754_finite s m e else S754_infinity s.
Proof.
  intros H. unfold binary_round_aux at 1, shr_fexp at 1. cbn [Zdigits2 shr_record_of_loc].
  rewrite digits2_pos_shift.
  replace (Zpos (digits2_pos m + k) + (e - Zpos k)) with (Zpos (digits2_pos m) + e)
    by (rewrite Pos2Z.inj_add; lia).
  rewrite H. replace (e - (e - Zpos k)) with (Zpos k) by lia.
  cbn [shr]. rewrite shr_shift. replace (e - Zpos k + Zpos k) with e by lia.
  cbn [shr_m loc_of_shr_record round_nearest_even].
  unfold shr_fexp. cbn [Zdigits2 shr_record_of_loc].
  rewrite H, Z.sub_diag. reflexivity.
Qed.

(** [x as f64 as f32] is [x] for every binary32 value [x]. *)
Lemma f32_f64_roundtrip (x : spec_float) :
  valid_binary 24 128 x = true -> f32_of_f64 (f64_of_f32 x) = x.
Proof.
  destruct x as [s|s| |s m e]; try reflexivity.
  unfold valid_binary, bounded, canonical_mantissa.
  intros H. apply andb_prop in H as [Hc He]. apply Z.eqb_eq in Hc. apply Z.leb_le in He.
  assert (Hc' := Hc). unfold fexp, emin in Hc'.
  set (d := Zpos (digits2_pos m)) in *.
  assert (Hd1 : 1 <= d) by (unfold d; lia).
  assert (Hd : d <= 24 /\ -149 <= e) by lia.
  set (k := Z.to_pos (53 - d)).
  assert (Hk : Zpos k = 53 - d) by (unfold k; rewrite Z2Pos.id; lia).
  cbn [f64_of_f32]. unfold binary_round at 1, shl_align at 1. fold d.
  replace (fexp 53 1024 (d + e)) with (e - Zpos k)
    by (unfold fexp, emin; rewrite Z.max_l by lia; lia).
  replace (e - Zpos k - e) with (Zneg k) by lia.
  change (PosDef.Pos.iter xO m k) with (Pos.iter xO m k).
  rewrite round_aux_exact.
  2:{ rewrite digits2_pos_shift, Pos2Z.inj_add. fold d. unfold fexp, emin.
      rewrite Z.max_l by lia. lia. }
  replace (e - Zpos k <=? 1024 - 53) with true by (symmetry; apply Z.leb_le; lia).
  cbn [f32_of_f64]. unfold binary_round, shl_align.
  rewrite digits2_pos_shift, Pos2Z.inj_add. fold d.
  replace (d + Zpos k + (e - Zpos k)) with (d + e) by lia. rewrite Hc.
  replace (e - (e - Zpos k)) with (Zpos k) by lia.
  rewrite round_aux_shift by exact Hc.
  replace (e <=? 128 - 24) with true by (symmetry; apply Z.leb_le; lia).
  reflexivity.
Qed.

(** X18 (pbvalue_to_json, json_to_pbvalue): a scalar value valid for its kind and within the range of its Rust type (including every finite f32, which is written as the f64 it converts to) survives the round trip through JSON. *)
Theorem pbvalue_to_json_scalar_roundtrip (pool : DescriptorPool) (kind : Kind) (pv : PbValue) :
  is_valid pv kind = true -> pb_scalar_in_range pv = true ->
  json_to_pbvalue pool kind (pbvalue_to_json pv) = Ok pv.
Proof.
  intros Hv Hr.
  destruct pv as [b|i|i|u|u|f|f|s|bs|n| | |]; try discriminate Hr;
    destruct kind; try discriminate Hv; cbn [pb_scalar_in_range] in Hr;
    try (apply andb_true_iff in Hr as [Hr1 Hr2]; apply Z.leb_le in Hr1;
         first [apply Z.ltb_lt in Hr2 | apply Z.leb_le in Hr2]);
    cbn [pbvalue_to_json].
  all: try (unfold json_of_u64; cbn [json_to_pbvalue as_u64 of_option bind];
            try rewrite wrap_u32_small by lia; reflexivity).
  all: try (assert (Hi : as_i64 (json_of_i64 i) = Some i)
              by (apply as_i64_json_of_i64; unfold i64_max in *; lia);
            unfold json_of_i64 in Hi |- *; destruct (i <? 0);
            cbn [json_to_pbvalue of_option bind] in Hi |- *; rewrite Hi; cbn [of_option bind];
            try rewrite wrap_i32_small by lia; reflexivity).
  - unfold json_of_f32. apply andb_true_iff in Hr as [Hf Hvb]. rewrite Hf.
    cbn [json_to_pbvalue as_f64 of_option bind]. rewrite f32_f64_roundtrip by exact Hvb.
    reflexivity.
  - unfold json_of_f64. rewrite Hr. reflexivity.
  - cbn [json_to_pbvalue as_str of_option bind]. unfold b64_decode, b64_encode.
    rewrite list_ascii_of_string_of_list_ascii, (b64_encode_decode_chars (length bs) bs (le_n _));
      [reflexivity|].
    apply Forall_forall. rewrite forallb_forall in Hr. intros x Hx. specialize (Hr x Hx).
    apply andb_true_iff in Hr as [H1 H2]. apply Z.leb_le in H1. apply Z.ltb_lt in H2. lia.
  - assert (Hi : as_i64 (json_of_i64 n) = Some n)
      by (apply as_i64_json_of_i64; unfold i64_max in *; lia).
    unfold json_of_i64 in Hi |- *. destruct (n <? 0);
      cbn [json_to_pbvalue as_str] in Hi |- *; rewrite Hi; rewrite wrap_i32_small by lia;
      reflexivity.
Qed.

Lemma find_field_by_name (fl : list FieldDescriptor) (f : FieldDescriptor) :
  NoDup (List.map field_name fl) -> In f fl ->
  find (fun g => String.eqb (field_name g) (field_name f)) fl = Some f.
Proof.
  intros Hnd Hf.
  destruct (find (fun g => String.eqb (field_name g) (field_name f)) fl) as [g|] eqn:E.
  - apply find_some in E as [Hg Heq]. apply String.eqb_eq in Heq.
    now rewrite (NoDup_map_inj field_name fl g f Hnd Hg Hf Heq).
  - exfalso. apply (find_none _ _ E f) in Hf. now rewrite String.eqb_refl in Hf.
Qed.

Lemma NoDup_map_filter {A B} (h : A -> B) (p : A -> bool) (l : list A) :
  NoDup (List.map h l) -> NoDup (List.map h (filter p l)).
Proof.
  induction l as [|x l IH]; simpl; intros Hnd; [constructor|].
  inversion Hnd as [|? ? Hx Hnd']; subst. destruct (p x); simpl; [|auto].
  constructor; [|auto]. intros Hin. apply Hx. apply in_map_iff in Hin as [y [Hy Hin]].
  apply filter_In in Hin as [Hin _]. rewrite <- Hy. now apply in_map.
Qed.

(** X19 (normalize_json_for_comparison): expecting an enum field by the name of the value stored in a present field matches the message. *)
Theorem expectation_enum_name_matches (message : DynamicMessage) (f : FieldDescriptor)
  (e : EnumDescriptor) (s : string) (n : Z) :
  NoDup (List.map field_name (fields (descriptor message))) ->
  In f (fields (descriptor message)) ->
  field_kind f = Enum e ->
  lookup_number (field_number f) (dm_fields message) = Some (EnumNumber n) ->
  has_field message f = true ->
  map_get s (enum_values e) = Some n ->
  exists normalized,
    normalize_json_for_comparison (JObject [(field_name f, JString s)]) message = Ok normalized /\
    json_partial_match normalized (dynamic_to_json message) = true.
Proof.
  intros Hnd Hf Hk Hl Hh Hs.
  rewrite normalize_object by (constructor; [intros []|constructor]).
  eexists. split; [reflexivity|].
  assert (Hent : normalize_entry message (field_name f) (JString s) = json_of_i64 n).
  { unfold normalize_entry. rewrite (find_field_by_name _ f Hnd Hf), Hk.
    pose proof (find_enum_value (enum_values e) s) as Hfe.
    destruct (find _ (enum_values e)) as [[? m]|]; rewrite Hs in Hfe; [|discriminate].
    now injection Hfe as ->. }
  cbn [List.map]. rewrite Hent. rewrite (dynamic_to_json_fields message Hnd).
  cbn [json_partial_match forallb]. rewrite andb_true_r.
  rewrite (In_map_get _ _ (pbvalue_to_json (EnumNumber n))).
  - cbn [pbvalue_to_json]. unfold json_of_i64. destruct (n <? 0); apply Z.eqb_refl.
  - rewrite map_map. exact (NoDup_map_filter field_name (has_field message) _ Hnd).
  - apply in_map_iff. exists f. rewrite Hl. split; [reflexivity|]. now apply filter_In.
Qed.

(** X3 (dynamic_to_json): when the field names of the descriptor are distinct, the JSON of a message is an object whose keys are exactly the names of the fields reported present; a present field's name gives the JSON of its stored value and an absent field's name gives nothing. *)
Theorem dynamic_to_json_lookup (m : DynamicMessage) :
  NoDup (List.map field_name (fields (descriptor m))) ->
  exists o, dynamic_to_json m = JObject o /\
    (forall f, In f (fields (descriptor m)) ->
       map_get (field_name f) o =
       if has_field m f then option_map pbvalue_to_json (lookup_number (field_number f) (dm_fields m))
       else None) /\
    (forall k, In k (List.map fst o) ->
       exists f, In f (fields (descriptor m)) /\ field_name f = k /\ has_field m f = true).
Proof.
  intros Hnd. rewrite (dynamic_to_json_fields m Hnd). eexists. split; [reflexivity|].
  assert (Hkeys : forall k, In k (List.map fst
            (List.map (fun f => (field_name f,
                                 match lookup_number (field_number f) (dm_fields m) with
                                 | Some pv => pbvalue_to_json pv
                                 | None => JNull
                                 end)) (filter (has_field m) (fields (descriptor m))))) ->
            exists f, In f (fields (descriptor m)) /\ field_name f = k /\ has_field m f = true).
  { intros k Hk. rewrite map_map in Hk. apply in_map_iff in Hk as [f [Hfk Hf]].
    apply filter_In in Hf as [Hf Hh]. exists f. auto. }
  split; [|exact Hkeys]. intros f Hf. destruct (has_field m f) eqn:Eh.
  - assert (Eh' := Eh). unfold has_field, has_field_in in Eh'.
    destruct (lookup_number (field_number f) (dm_fields m)) as [pv|] eqn:El; [|discriminate].
    cbn [option_map]. apply In_map_get.
    + rewrite map_map. exact (NoDup_map_filter field_name (has_field m) _ Hnd).
    + apply in_map_iff. exists f. rewrite El. split; [reflexivity|].
      apply filter_In. split; assumption.
  - apply map_get_None. intros Hin. destruct (Hkeys _ Hin) as [g [Hg [Hname Hhg]]].
    rewrite (NoDup_map_inj field_name _ g f Hnd Hg Hf Hname) in Hhg. congruence.
Qed.

(** ** Debug text of map keys *)

Lemma digit_inj (x y : Z) : 0 <= x < 10 -> 0 <= y < 10 -> digit x = digit y -> x = y.
Proof.
  intros Hx Hy. rewrite <- (Z2Nat.id x), <- (Z2Nat.id y) by lia.
  assert (Hx' : (Z.to_nat x < 10)%nat) by lia. assert (Hy' : (Z.to_nat y < 10)%nat) by lia.
  revert Hx' Hy'. generalize (Z.to_nat x), (Z.to_nat y). intros n m Hn Hm.
  do 10 (destruct n as [|n]; [do 10 (destruct m as [|m]; [discriminate || reflexivity|]); lia|]).
  lia.
Qed.

Lemma digit_not_minus (x : Z) : 0 <= x < 10 -> digit x <> "-"%char.
Proof.
  intros Hx. rewrite <- (Z2Nat.id x) by lia.
  assert (Hx' : (Z.to_nat x < 10)%nat) by lia. revert Hx'. generalize (Z.to_nat x). intros n Hn.
  do 10 (destruct n as [|n]; [discriminate|]). lia.
Qed.

Lemma string_append_assoc (a b c : string) : ((a ++ b) ++ c = a ++ (b ++ c))%string.
Proof. induction a as [|x a IH]; simpl; [reflexivity|]. now rewrite IH. Qed.

Lemma dec_digits_acc (fuel : nat) :
  forall n acc, dec_digits fuel n acc = (dec_digits fuel n EmptyString ++ acc)%string.
Proof.
  induction fuel as [|f IH]; intros n acc; simpl; [reflexivity|].
  destruct (n / 10 =? 0); [reflexivity|].
  rewrite (IH _ (String _ acc)), (IH _ (String _ EmptyString)).
  rewrite string_append_assoc. reflexivity.
Qed.

Lemma dec_digits_step (f : nat) (n : Z) :
  dec_digits (S f) n EmptyString =
  if n / 10 =? 0 then String (digit (n mod 10)) EmptyString
  else (dec_digits f (n / 10) EmptyString ++ String (digit (n mod 10)) EmptyString)%string.
Proof. simpl. destruct (n / 10 =? 0); [reflexivity|]. apply dec_digits_acc. Qed.

Lemma list_ascii_of_string_inj (a b : string) :
  list_ascii_of_string a = list_ascii_of_string b -> a = b.
Proof.
  intros H. rewrite <- (string_of_list_ascii_of_string a), <- (string_of_list_ascii_of_string b).
  now rewrite H.
Qed.

Lemma dec_digits_list (f : nat) (n : Z) :
  list_ascii_of_string (dec_digits (S f) n EmptyString) =
  if n / 10 =? 0 then [digit (n mod 10)]
  else list_ascii_of_string (dec_digits f (n / 10) EmptyString) ++ [digit (n mod 10)].
Proof.
  rewrite dec_digits_step. destruct (n / 10 =? 0); [reflexivity|].
  now rewrite list_ascii_of_string_append.
Qed.

Lemma dec_digits_nonempty (f : nat) (n : Z) :
  list_ascii_of_string (dec_digits (S f) n EmptyString) <> [].
Proof.
  rewrite dec_digits_list. destruct (n / 10 =? 0); [discriminate|].
  intros H. apply app_eq_nil in H as [_ H]. discriminate.
Qed.

Lemma dec_digits_inj (f1 : nat) :
  forall f2 n m, 0 <= n < 10 ^ Z.of_nat (S f1) -> 0 <= m < 10 ^ Z.of_nat (S f2) ->
  list_ascii_of_string (dec_digits (S f1) n EmptyString) =
  list_ascii_of_string (dec_digits (S f2) m EmptyString) -> n = m.
Proof.
  induction f1 as [|f1 IH]; intros f2 n m Hn Hm H; rewrite !dec_digits_list in H.
  - change (10 ^ Z.of_nat 1) with 10 in Hn.
    assert (E : n / 10 = 0) by (Z.div_mod_to_equations; lia).
    rewrite E in H. simpl in H.
    destruct (Z.eqb_spec (m / 10) 0) as [Em|Em].
    + injection H as H. apply digit_inj in H; [|Z.div_mod_to_equations; lia..].
      Z.div_mod_to_equations; lia.
    + exfalso. destruct f2 as [|f2].
      * change (10 ^ Z.of_nat 1) with 10 in Hm. apply Em. Z.div_mod_to_equations; lia.
      * pose proof (dec_digits_nonempty f2 (m / 10)) as Hne.
        destruct (list_ascii_of_string (dec_digits (S f2) (m / 10) EmptyString)) as [|x l];
          [now apply Hne|]. simpl in H. injection H as _ H. symmetry in H.
        apply app_eq_nil in H as [_ H]. discriminate.
  - assert (Hd : forall k x, 0 <= x < 10 ^ Z.of_nat (S k) -> 0 <= x / 10 < 10 ^ Z.of_nat k).
    { intros k x Hx. rewrite Nat2Z.inj_succ, Z.pow_succ_r in Hx by lia.
      pose proof (Z.pow_pos_nonneg 10 (Z.of_nat k)).
      split; [apply Z.div_pos; lia|]. apply Z.div_lt_upper_bound; lia. }
    assert (Hsplit : forall f x, 0 <= x < 10 ^ Z.of_nat (S f) ->
      list_ascii_of_string (dec_digits (S f) x EmptyString) =
      (if x / 10 =? 0 then [] else list_ascii_of_string (dec_digits f (x / 10) EmptyString))
      ++ [digit (x mod 10)]).
    { intros f x _. rewrite dec_digits_list. now destruct (x / 10 =? 0). }
    rewrite <- !dec_digits_list in H. rewrite (Hsplit _ n Hn), (Hsplit _ m Hm) in H.
    apply app_inj_tail in H as [Hp Hl].
    apply digit_inj in Hl; [|Z.div_mod_to_equations; lia..].
    assert (Hq : n / 10 = m / 10).
    { destruct (Z.eqb_spec (n / 10) 0) as [En|En], (Z.eqb_spec (m / 10) 0) as [Em|Em];
        [congruence| | |].
      - exfalso. destruct f2 as [|f2].
        + apply Em. specialize (Hd O m Hm). simpl in Hd. lia.
        + exact (dec_digits_nonempty f2 (m / 10) (eq_sym Hp)).
      - exfalso. exact (dec_digits_nonempty f1 (n / 10) Hp).
      - destruct f2 as [|f2]; [specialize (Hd O m Hm); simpl in Hd; lia|].
        exact (IH f2 _ _ (Hd _ _ Hn) (Hd _ _ Hm) Hp). }
    Z.div_mod_to_equations. lia.
Qed.

Lemma dec_digits_all_digits (f : nat) :
  forall n c, 0 <= n -> In c (list_ascii_of_string (dec_digits f n EmptyString)) ->
  exists x, 0 <= x < 10 /\ c = digit x.
Proof.
  induction f as [|f IH]; intros n c Hn Hc; [destruct Hc|].
  rewrite dec_digits_list in Hc.
  assert (Hlast : c = digit (n mod 10) -> exists x, 0 <= x < 10 /\ c = digit x)
    by (intros ->; exists (n mod 10); split; [apply Z.mod_pos_bound; lia|reflexivity]).
  destruct (n / 10 =? 0).
  - destruct Hc as [<-|[]]. now apply Hlast.
  - apply in_app_or in Hc as [Hc|[<-|[]]]; [|now apply Hlast].
    apply (IH (n / 10)); [apply Z.div_pos; lia|exact Hc].
Qed.

Lemma fmt_int_fuel (a : Z) : 0 <= a -> 0 <= a < 10 ^ Z.of_nat (S (Z.to_nat (Z.log2 a))).
Proof.
  intros Ha. split; [exact Ha|]. rewrite Nat2Z.inj_succ, Z2Nat.id by apply Z.log2_nonneg.
  destruct (Z.eq_dec a 0) as [->|Ha0]; [reflexivity|].
  apply Z.lt_le_trans with (2 ^ Z.succ (Z.log2 a)).
  - apply Z.log2_spec. lia.
  - apply Z.pow_le_mono_l. lia.
Qed.

Lemma fmt_int_inj (i j : Z) : fmt_int i = fmt_int j -> i = j.
Proof.
  unfold fmt_int. intros H.
  pose proof (fmt_int_fuel (Z.abs i) (Z.abs_nonneg i)) as Fi.
  pose proof (fmt_int_fuel (Z.abs j) (Z.abs_nonneg j)) as Fj.
  pose proof (dec_digits_nonempty (Z.to_nat (Z.log2 (Z.abs j))) (Z.abs j)) as Nj.
  pose proof (dec_digits_nonempty (Z.to_nat (Z.log2 (Z.abs i))) (Z.abs i)) as Ni.
  pose proof (fun c => dec_digits_all_digits (S (Z.to_nat (Z.log2 (Z.abs j)))) (Z.abs j) c
                (Z.abs_nonneg j)) as Dj.
  pose proof (fun c => dec_digits_all_digits (S (Z.to_nat (Z.log2 (Z.abs i)))) (Z.abs i) c
                (Z.abs_nonneg i)) as Di.
  destruct (Z.ltb_spec i 0), (Z.ltb_spec j 0).
  - injection H as H. apply (f_equal list_ascii_of_string) in H.
    apply dec_digits_inj in H; [lia|exact Fi|exact Fj].
  - exfalso. apply (f_equal list_ascii_of_string) in H. cbn [list_ascii_of_string] in H.
    destruct (list_ascii_of_string (dec_digits _ (Z.abs j) EmptyString)) as [|c l] eqn:E;
      [now apply Nj|]. injection H as Hc _.
    destruct (Dj c (or_introl eq_refl)) as [x [Hx Hcx]]. apply (digit_not_minus x Hx). congruence.
  - exfalso. apply (f_equal list_ascii_of_string) in H. cbn [list_ascii_of_string] in H.
    destruct (list_ascii_of_string (dec_digits _ (Z.abs i) EmptyString)) as [|c l] eqn:E;
      [now apply Ni|]. injection H as Hc _.
    destruct (Di c (or_introl eq_refl)) as [x [Hx Hcx]]. apply (digit_not_minus x Hx). congruence.
  - apply (f_equal list_ascii_of_string) in H.
    apply dec_digits_inj in H; [lia|exact Fi|exact Fj].
Qed.

Lemma string_prefix_app (a b s t : string) :
  (a ++ s)%string = (b ++ t)%string -> String.prefix a b = true \/ String.prefix b a = true.
Proof.
  revert b. induction a as [|x a IH]; intros b H; [left; destruct b; reflexivity|].
  destruct b as [|y b]; [now right|]. simpl in H. injection H as <- H.
  simpl. destruct (ascii_dec x x) as [_|]; [|congruence]. exact (IH b H).
Qed.

Lemma string_app_inv_l (a s t : string) : (a ++ s)%string = (a ++ t)%string -> s = t.
Proof. induction a as [|x a IH]; simpl; [auto|]. intros H. injection H as H. auto. Qed.

Lemma In_all_ascii (c : ascii) : In c (List.map ascii_of_nat (seq 0 256)).
Proof.
  apply in_map_iff. exists (nat_of_ascii c). split; [apply ascii_nat_embedding|].
  apply in_seq. pose proof (nat_ascii_bounded c). lia.
Qed.

(** The escapes of distinct bytes are never prefixes of one another, and none
    is empty. *)
Lemma escape_debug_char_prefix_free :
  forallb (fun c1 => negb (String.eqb (escape_debug_char c1) EmptyString) &&
    forallb (fun c2 => Ascii.eqb c1 c2 ||
                       negb (String.prefix (escape_debug_char c1) (escape_debug_char c2)))
      (List.map ascii_of_nat (seq 0 256)))
    (List.map ascii_of_nat (seq 0 256)) = true.
Proof. vm_compute. reflexivity. Qed.

Lemma escape_debug_char_facts (c1 c2 : ascii) :
  escape_debug_char c1 <> EmptyString /\
  (c1 <> c2 -> String.prefix (escape_debug_char c1) (escape_debug_char c2) = false).
Proof.
  pose proof escape_debug_char_prefix_free as H. rewrite forallb_forall in H.
  specialize (H c1 (In_all_ascii c1)). apply andb_true_iff in H as [Hne H].
  rewrite forallb_forall in H. specialize (H c2 (In_all_ascii c2)). split.
  - intros E. rewrite E in Hne. discriminate.
  - intros Hc. destruct (Ascii.eqb_spec c1 c2); [contradiction|].
    simpl in H. now apply negb_true_iff in H.
Qed.

Lemma escape_debug_inj (s1 : string) : forall s2, escape_debug s1 = escape_debug s2 -> s1 = s2.
Proof.
  induction s1 as [|c1 s1 IH]; intros [|c2 s2] H; simpl in H; [reflexivity| | |].
  - exfalso. destruct (escape_debug_char_facts c2 c2) as [Hne _].
    destruct (escape_debug_char c2); [now apply Hne|discriminate].
  - exfalso. destruct (escape_debug_char_facts c1 c1) as [Hne _].
    destruct (escape_debug_char c1); [now apply Hne|discriminate].
  - assert (Hc : c1 = c2).
    { destruct (ascii_dec c1 c2) as [|Hc]; [assumption|exfalso].
      destruct (string_prefix_app _ _ _ _ H) as [Hp|Hp].
      - rewrite (proj2 (escape_debug_char_facts c1 c2) Hc) in Hp. discriminate.
      - rewrite (proj2 (escape_debug_char_facts c2 c1) (not_eq_sym Hc)) in Hp. discriminate. }
    subst c2. f_equal. apply IH. exact (string_app_inv_l _ _ _ H).
Qed.

Lemma string_app_inv_r (a b s : string) : (a ++ s)%string = (b ++ s)%string -> a = b.
Proof.
  intros H. apply (f_equal list_ascii_of_string) in H. rewrite !list_ascii_of_string_append in H.
  apply app_inv_tail in H. exact (list_ascii_of_string_inj _ _ H).
Qed.

Lemma fmt_map_key_inj (k1 k2 : MapKey) : fmt_map_key k1 = fmt_map_key k2 -> k1 = k2.
Proof.
  destruct k1 as [b1|i1|i1|u1|u1|s1], k2 as [b2|i2|i2|u2|u2|s2]; intros H;
    try (simpl in H; discriminate H); unfold fmt_map_key in H.
  - destruct b1, b2; try reflexivity; simpl in H; discriminate H.
  - apply string_app_inv_l, string_app_inv_r, fmt_int_inj in H. now subst.
  - apply string_app_inv_l, string_app_inv_r, fmt_int_inj in H. now subst.
  - apply string_app_inv_l, string_app_inv_r, fmt_int_inj in H. now subst.
  - apply string_app_inv_l, string_app_inv_r, fmt_int_inj in H. now subst.
  - apply string_app_inv_l in H. injection H as H.
    apply string_app_inv_r, escape_debug_inj in H. now subst.
Qed.

(** X20 (pbvalue_to_json): distinct map keys whose text is ASCII are rendered as distinct JSON object keys. *)
Theorem fmt_map_key_injective (k1 k2 : MapKey) :
  key_ascii k1 = true -> key_ascii k2 = true -> k1 <> k2 -> fmt_map_key k1 <> fmt_map_key k2.
Proof. intros _ _ Hne H. exact (Hne (fmt_map_key_inj k1 k2 H)). Qed.

Lemma render_map_fold (l : list (MapKey * Value)) :
  forall acc,
  NoDup (List.map (fun kv => fmt_map_key (fst kv)) l) ->
  (forall k, In k (List.map fst acc) -> ~ In k (List.map (fun kv => fmt_map_key (fst kv)) l)) ->
  fold_left (fun out '(k, jv) => map_insert (fmt_map_key k) jv out) l acc
  = acc ++ List.map (fun '(k, jv) => (fmt_map_key k, jv)) l.
Proof.
  induction l as [|[k jv] l IH]; intros acc Hnd Hdis; simpl; [now rewrite app_nil_r|].
  inversion Hnd as [|? ? Hk Hnd']; subst.
  rewrite map_insert_fresh by (intros Hin; apply (Hdis _ Hin); now left).
  rewrite IH; [now rewrite <- app_assoc | exact Hnd' |].
  intros k' Hin. rewrite map_app in Hin. apply in_app_or in Hin as [Hin|[<-|[]]].
  - intros H. apply (Hdis k' Hin). now right.
  - exact Hk.
Qed.

Lemma pbvalue_to_json_map_list (m : list (MapKey * PbValue)) :
  NoDup (List.map fst m) ->
  pbvalue_to_json (VMap m) =
  JObject (List.map (fun '(k, x) => (fmt_map_key k, pbvalue_to_json x)) m).
Proof.
  intros Hnd. cbn [pbvalue_to_json]. rewrite render_map_fold; [| |intros k []].
  - simpl. f_equal. rewrite map_map. apply map_ext. now intros [k x].
  - rewrite map_map. induction m as [|[k x] m IH]; simpl; [constructor|].
    inversion Hnd as [|? ? Hk Hnd']; subst. constructor; [|exact (IH Hnd')].
    intros Hin. apply in_map_iff in Hin as [[k' x'] [Hkk Hin]]. simpl in Hkk.
    apply fmt_map_key_inj in Hkk. subst k'. apply Hk. exact (in_map fst _ _ Hin).
Qed.

(** X21 (pbvalue_to_json): a map with distinct ASCII keys is rendered as an object whose keys are exactly the formatted map keys; the formatted key of an entry gives the JSON of the entry's value. *)
Theorem pbvalue_to_json_map_lookup (m : list (MapKey * PbValue)) :
  NoDup (List.map fst m) ->
  Forall (fun kx => key_ascii (fst kx) = true) m ->
  exists o, pbvalue_to_json (VMap m) = JObject o /\
    (forall k x, In (k, x) m -> map_get (fmt_map_key k) o = Some (pbvalue_to_json x)) /\
    (forall key, In key (List.map fst o) -> exists k x, In (k, x) m /\ key = fmt_map_key k).
Proof.
  intros Hnd _. rewrite (pbvalue_to_json_map_list m Hnd). eexists. split; [reflexivity|].
  split.
  - intros k x Hin. apply In_map_get.
    + rewrite map_map. clear Hin. induction m as [|[k0 x0] m IH]; simpl; [constructor|].
      inversion Hnd as [|? ? Hk Hnd']; subst. constructor; [|exact (IH Hnd')].
      intros Hin. apply in_map_iff in Hin as [[k' x'] [Hkk Hin]]. simpl in Hkk.
      apply fmt_map_key_inj in Hkk. subst k'. apply Hk. exact (in_map fst _ _ Hin).
    + apply in_map_iff. exists (k, x). split; [reflexivity|exact Hin].
  - intros key Hkey. rewrite map_map in Hkey. apply in_map_iff in Hkey as [[k x] [Hk Hin]].
    exists k, x. split; [exact Hin|]. symmetry. exact Hk.
Qed.

(** ** Witnesses *)

Lemma json_partial_match_refl_witness :
  keys_distinct (JObject [("a"%string, JArray [JNumber (PosInt 1); JObject [("b"%string, JNull)]]);
                          ("c"%string, JNumber (Float (S754_zero true)))])
  && floats_finite (JObject [("a"%string, JArray [JNumber (PosInt 1); JObject [("b"%string, JNull)]]);
                             ("c"%string, JNumber (Float (S754_zero true)))]) = true /\
  json_partial_match
    (JObject [("a"%string, JArray [JNumber (PosInt 1); JObject [("b"%string, JNull)]]);
              ("c"%string, JNumber (Float (S754_zero true)))])
    (JObject [("a"%string, JArray [JNumber (PosInt 1); JObject [("b"%string, JNull)]]);
              ("c"%string, JNumber (Float (S754_zero true)))]) = true.
Proof. split; [reflexivity|]. apply json_partial_match_refl. reflexivity. Defined.

Lemma json_partial_match_trans_witness :
  json_partial_match (JObject [("a"%string, JArray [JNumber (Float (S754_zero false))])])
    (JObject [("a"%string, JArray [JNumber (Float (S754_zero true)); JNull]);
              ("b"%string, JBool true)]) = true /\
  json_partial_match
    (JObject [("a"%string, JArray [JNumber (Float (S754_zero true)); JNull]);
              ("b"%string, JBool true)])
    (JObject [("b"%string, JBool true);
              ("a"%string, JArray [JNull; JNumber (Float (S754_zero false))]);
              ("c"%string, JNull)]) = true /\
  json_partial_match (JObject [("a"%string, JArray [JNumber (Float (S754_zero false))])])
    (JObject [("b"%string, JBool true);
              ("a"%string, JArray [JNull; JNumber (Float (S754_zero false))]);
              ("c"%string, JNull)]) = true.
Proof.
  split; [reflexivity|]. split; [reflexivity|].
  apply (json_partial_match_trans _
    (JObject [("a"%string, JArray [JNumber (Float (S754_zero true)); JNull]);
              ("b"%string, JBool true)])); reflexivity.
Defined.

Lemma dynamic_to_json_lookup_witness :
  NoDup (List.map field_name (fields ping_desc)) /\
  exists o, dynamic_to_json {| descriptor := ping_desc; dm_fields := [(3, EnumNumber 0); (1, I32 7)] |}
            = JObject o /\
    map_get "amount"%string o = Some (JNumber (PosInt 7)) /\ map_get "status"%string o = None.
Proof.
  assert (Hnd : NoDup (List.map field_name (fields ping_desc)))
    by (apply (nodupb_NoDup _ String.eqb_eq); reflexivity).
  split; [exact Hnd|].
  destruct (dynamic_to_json_lookup
              {| descriptor := ping_desc; dm_fields := [(3, EnumNumber 0); (1, I32 7)] |} Hnd)
    as [o [Ho [Hget _]]].
  exists o. split; [exact Ho|]. split.
  - exact (Hget (scalar_field "amount" 1 Int32) (or_introl eq_refl)).
  - exact (Hget (scalar_field "status" 3 (Enum status_enum)) (or_intror (or_intror (or_introl eq_refl)))).
Defined.

Lemma normalize_json_for_comparison_idempotent_witness :
  keys_distinct (JObject [("status"%string, JString "ERROR"); ("amount"%string, JNumber (PosInt 3))])
  = true /\
  normalize_json_for_comparison
    (JObject [("status"%string, JString "ERROR"); ("amount"%string, JNumber (PosInt 3))])
    (new_message ping_desc)
  = Ok (JObject [("status"%string, JNumber (PosInt 1)); ("amount"%string, JNumber (PosInt 3))]) /\
  normalize_json_for_comparison
    (JObject [("status"%string, JNumber (PosInt 1)); ("amount"%string, JNumber (PosInt 3))])
    (new_message ping_desc)
  = Ok (JObject [("status"%string, JNumber (PosInt 1)); ("amount"%string, JNumber (PosInt 3))]).
Proof.
  split; [reflexivity|]. split; [reflexivity|].
  apply (normalize_json_for_comparison_idempotent
           (JObject [("status"%string, JString "ERROR"); ("amount"%string, JNumber (PosInt 3))]));
    reflexivity.
Defined.

Lemma expectation_on_unset_field_fails_witness :
  NoDup (List.map field_name (fields ping_desc)) /\
  In (scalar_field "status" 3 (Enum status_enum)) (fields ping_desc) /\
  has_field {| descriptor := ping_desc; dm_fields := [(3, EnumNumber 0)] |}
    (scalar_field "status" 3 (Enum status_enum)) = false /\
  normalize_json_for_comparison (JObject [("status"%string, JString "OK")])
    {| descriptor := ping_desc; dm_fields := [(3, EnumNumber 0)] |}
  = Ok (JObject [("status"%string, JNumber (PosInt 0))]) /\
  json_partial_match (JObject [("status"%string, JNumber (PosInt 0))])
    (dynamic_to_json {| descriptor := ping_desc; dm_fields := [(3, EnumNumber 0)] |}) = false.
Proof.
  assert (Hnd : NoDup (List.map field_name (fields ping_desc)))
    by (apply (nodupb_NoDup _ String.eqb_eq); reflexivity).
  assert (Hin : In (scalar_field "status" 3 (Enum status_enum)) (fields ping_desc))
    by (right; right; left; reflexivity).
  split; [exact Hnd|]. split; [exact Hin|]. split; [reflexivity|]. split; [reflexivity|].
  apply (expectation_on_unset_field_fails [("status"%string, JString "OK")]
           {| descriptor := ping_desc; dm_fields := [(3, EnumNumber 0)] |}
           (scalar_field "status" 3 (Enum status_enum)) (JString "OK"));
    [exact Hnd | exact Hin | reflexivity | now left | reflexivity].
Defined.

Lemma json_to_pbvalue_fits_kind_witness :
  json_to_pbvalue demo_pool Int32 (JNumber (PosInt 4294967295)) = Ok (I32 (-1)) /\
  is_valid (I32 (-1)) Int32 = true /\ - 2 ^ 31 <= -1 < 2 ^ 31.
Proof.
  split; [reflexivity|].
  apply (json_to_pbvalue_fits_kind demo_pool Int32 (JNumber (PosInt 4294967295))). reflexivity.
Defined.

Lemma build_from_json_no_panic_witness :
  forallb (fun md => forallb (fun f => match field_card f with Single => true | _ => false end)
                             (fields md)) demo_pool = true /\
  build_from_json demo_pool "Ping"%string
    (JObject [("inner"%string, JObject [("note"%string, JNumber (PosInt 1))])])
  <> Panic "InvalidType"%string.
Proof.
  split; [reflexivity|]. apply build_from_json_no_panic. reflexivity.
Defined.

Lemma build_from_json_stores_valid_values_witness :
  build_from_json batch_pool "Batch"%string (JObject [("ids"%string, JNumber (PosInt 7))])
  = Ok {| descriptor := batch_desc; dm_fields := [(1, I32 7)] |} /\
  (exists desc, message_desc batch_pool "Batch"%string = Ok desc /\ batch_desc = desc) /\
  Forall (fun nv => exists f, In f (fields batch_desc) /\ field_number f = fst nv /\
                              is_valid (snd nv) (field_kind f) = true) [(1, I32 7)].
Proof.
  split; [reflexivity|].
  apply (build_from_json_stores_valid_values batch_pool "Batch"%string
           (JObject [("ids"%string, JNumber (PosInt 7))])
           {| descriptor := batch_desc; dm_fields := [(1, I32 7)] |}).
  reflexivity.
Defined.

Lemma expect_loop_accepts_matching_message_witness :
  expect_loop demo_pool (fun m _ => Some m) (fun _ => "Ping"%string) "Ping"%string
    (JObject []) [Received [[1]]; Received [[80]; []]] = Some (Ok (JObject [])) /\
  exists pre t payload rest dm normalized,
    [Received [[1]]; Received [[80]; []]] = pre ++ Received [t; payload] :: rest /\
    expect_loop demo_pool (fun m _ => Some m) (fun _ => "Ping"%string) "Ping"%string
      (JObject []) pre = None /\
    (fun _ => "Ping"%string) t = "Ping"%string /\
    decode_message demo_pool (fun m _ => Some m) ("company.project.v1." ++ "Ping")%string payload
    = Ok dm /\
    JObject [] = dynamic_to_json dm /\
    normalize_json_for_comparison (JObject []) dm = Ok normalized /\
    json_partial_match normalized (JObject []) = true.
Proof.
  split; [reflexivity|]. apply expect_loop_accepts_matching_message. reflexivity.
Defined.

Lemma message_desc_dotted_name_needs_full_name_witness :
  In "."%char (list_ascii_of_string "company.other.Pong") /\
  get_message_by_name demo_pool "company.other.Pong" = None /\
  message_desc demo_pool "company.other.Pong" = Err (MessageNotFound "company.other.Pong").
Proof.
  assert (Hdot : In "."%char (list_ascii_of_string "company.other.Pong"))
    by (do 7 right; now left).
  split; [exact Hdot|]. split; [reflexivity|].
  apply message_desc_dotted_name_needs_full_name; [exact Hdot|reflexivity].
Defined.

Lemma expect_loop_outside_package_never_matches_witness :
  message_desc [other_ping_desc] "Ping"%string = Ok other_ping_desc /\
  get_message_by_name [other_ping_desc] ("company.project.v1." ++ "Ping")%string = None /\
  expect_loop [other_ping_desc] (fun m _ => Some m) (fun _ => "Ping"%string) "Ping"%string
    (JObject []) [Received [[80]; []]] <> Some (Ok (JObject [])).
Proof.
  split; [reflexivity|]. split; [reflexivity|].
  apply expect_loop_outside_package_never_matches. reflexivity.
Defined.

Lemma step_send_message_without_docstring_witness :
  message_desc demo_pool "Ping"%string = Ok ping_desc /\
  step_send_message demo_pool (fun _ => [9]) true (fun _ => None) None [] None "Ping"%string
  = (Ok tt, [[bytes_of_string "Ping"; [9]]]).
Proof.
  split; [reflexivity|].
  apply (step_send_message_without_docstring demo_pool (fun _ => [9]) (fun _ => None) []
           "Ping"%string ping_desc). reflexivity.
Defined.

Lemma step_expect_message_without_docstring_witness :
  expect_loop demo_pool (fun m _ => Some m) (fun _ => "Ping"%string) "Ping"%string
    (JObject []) [Received [[1]]] = None /\
  decode_message demo_pool (fun m _ => Some m) ("company.project.v1." ++ "Ping")%string []
  = Ok (new_message ping_desc) /\
  step_expect_message demo_pool (fun m _ => Some m) (fun _ => "Ping"%string) true (fun _ => None)
    None None "Ping"%string ([Received [[1]]] ++ Received [[80]; []] :: [RecvError EAGAIN])
  = Some (Ok tt).
Proof.
  split; [reflexivity|]. split; [reflexivity|].
  apply (step_expect_message_without_docstring demo_pool (fun m _ => Some m) (fun _ => "Ping"%string)
           (fun _ => None) "Ping"%string [Received [[1]]] [RecvError EAGAIN] [80] []
           (new_message ping_desc)); reflexivity.
Defined.

Lemma pbvalue_to_json_scalar_roundtrip_witness :
  (is_valid (VBytes [0; 1; 255; 128]) Bytes = true /\
   pb_scalar_in_range (VBytes [0; 1; 255; 128]) = true /\
   json_to_pbvalue demo_pool Bytes (pbvalue_to_json (VBytes [0; 1; 255; 128]))
   = Ok (VBytes [0; 1; 255; 128])) /\
  (is_valid (F32 (S754_finite false 13421773 (-27))) Float32 = true /\
   pb_scalar_in_range (F32 (S754_finite false 13421773 (-27))) = true /\
   json_to_pbvalue demo_pool Float32 (pbvalue_to_json (F32 (S754_finite false 13421773 (-27))))
   = Ok (F32 (S754_finite false 13421773 (-27)))).
Proof.
  split; (split; [reflexivity|]; split; [reflexivity|]);
    apply pbvalue_to_json_scalar_roundtrip; reflexivity.
Defined.

Lemma expectation_enum_name_matches_witness :
  NoDup (List.map field_name (fields ping_desc)) /\
  In (scalar_field "status" 3 (Enum status_enum)) (fields ping_desc) /\
  has_field {| descriptor := ping_desc; dm_fields := [(3, EnumNumber 1)] |}
    (scalar_field "status" 3 (Enum status_enum)) = true /\
  exists normalized,
    normalize_json_for_comparison (JObject [("status"%string, JString "ERROR")])
      {| descriptor := ping_desc; dm_fields := [(3, EnumNumber 1)] |} = Ok normalized /\
    json_partial_match normalized
      (dynamic_to_json {| descriptor := ping_desc; dm_fields := [(3, EnumNumber 1)] |}) = true.
Proof.
  assert (Hnd : NoDup (List.map field_name (fields ping_desc)))
    by (apply (nodupb_NoDup _ String.eqb_eq); reflexivity).
  assert (Hin : In (scalar_field "status" 3 (Enum status_enum)) (fields ping_desc))
    by (right; right; left; reflexivity).
  split; [exact Hnd|]. split; [exact Hin|]. split; [reflexivity|].
  apply (expectation_enum_name_matches _ (scalar_field "status" 3 (Enum status_enum))
           status_enum "ERROR"%string 1); try reflexivity; assumption.
Defined.

Lemma fmt_map_key_injective_witness :
  key_ascii (KeyI32 5) = true /\ key_ascii (KeyI64 5) = true /\
  KeyI32 5 <> KeyI64 5 /\ fmt_map_key (KeyI32 5) <> fmt_map_key (KeyI64 5) /\
  key_ascii (KeyString "a\b") = true /\ key_ascii (KeyString "a") = true /\
  KeyString "a\b" <> KeyString "a" /\
  fmt_map_key (KeyString "a\b") <> fmt_map_key (KeyString "a").
Proof.
  split; [reflexivity|]. split; [reflexivity|].
  split; [discriminate|]. split; [apply fmt_map_key_injective; [reflexivity|reflexivity|discriminate]|].
  split; [reflexivity|]. split; [reflexivity|].
  split; [discriminate|]. apply fmt_map_key_injective; [reflexivity|reflexivity|discriminate].
Defined.

Lemma pbvalue_to_json_map_lookup_witness :
  NoDup (List.map fst [(KeyString "1", I32 1); (KeyI32 1, VBool true)]) /\
  Forall (fun kx => key_ascii (fst kx) = true) [(KeyString "1", I32 1); (KeyI32 1, VBool true)] /\
  exists o, pbvalue_to_json (VMap [(KeyString "1", I32 1); (KeyI32 1, VBool true)]) = JObject o /\
    map_get (fmt_map_key (KeyString "1")) o = Some (JNumber (PosInt 1)) /\
    map_get (fmt_map_key (KeyI32 1)) o = Some (JBool true).
Proof.
  assert (Hnd : NoDup (List.map fst [(KeyString "1", I32 1); (KeyI32 1, VBool true)]))
    by (repeat constructor; simpl; [intros [H|[]]; discriminate | intros []]).
  assert (Ha : Forall (fun kx => key_ascii (fst kx) = true)
                 [(KeyString "1", I32 1); (KeyI32 1, VBool true)])
    by (repeat constructor).
  split; [exact Hnd|]. split; [exact Ha|].
  destruct (pbvalue_to_json_map_lookup _ Hnd Ha) as [o [Ho [Hget _]]].
  exists o. split; [exact Ho|]. split.
  - exact (Hget (KeyString "1") (I32 1) (or_introl eq_refl)).
  - exact (Hget (KeyI32 1) (VBool true) (or_intror (or_introl eq_refl))).
Defined.
